(** * tslearn.preprocessing: resampler and per-series scalers

    A shallow embedding of [tslearn/preprocessing.py] and the proofs of the
    properties its specification states.

    The three transformers are written once, over an interface [Number] of
    the array element type, the way the Python code is written once over
    numpy's element type.  Two instances are given:

    - [binary64]: IEEE 754 double precision ([SpecFloat] with 53 bits of
      mantissa), the element type the code runs on.
    - [exact]: exact rationals with one extra value for the missing-value
      sentinel.  It has no rounding, no overflow and no infinities, so it
      is easier than the program; it serves one statement only, that a
      missing entry stays missing whatever the element type.

    Every property below is stated for [binary64] or for every element
    type. *)

From Stdlib Require Import String List Bool Arith ZArith Lia Permutation.
From Stdlib Require Import QArith Qcanon.
From Stdlib Require Import SpecFloat.
Import ListNotations.
Close Scope Qc_scope.
Close Scope Q_scope.
Close Scope Z_scope.
Open Scope nat_scope.

Set Implicit Arguments.

(** ** The element type *)

Class Number (F : Type) := {
  zero   : F;
  one    : F;
  nan    : F;                       (* numpy.nan, the missing-value sentinel *)
  of_nat : nat -> F;                (* an integer count or index as an element *)
  add    : F -> F -> F;
  sub    : F -> F -> F;
  mul    : F -> F -> F;
  div    : F -> F -> F;
  sqrt   : F -> F;
  eqb    : F -> F -> bool;          (* Python [==] *)
  ltb    : F -> F -> bool;          (* Python [<]  *)
  leb    : F -> F -> bool;          (* Python [<=] *)
  isnan  : F -> bool                (* numpy.isnan *)
}.

Declare Scope num_scope.
Delimit Scope num_scope with num.
Infix "+" := add : num_scope.
Infix "-" := sub : num_scope.
Infix "*" := mul : num_scope.
Infix "/" := div : num_scope.
Infix "==?" := eqb (at level 70) : num_scope.
Infix "<?" := ltb : num_scope.
Infix "<=?" := leb : num_scope.
Notation "x >=? y" := (leb y x) (at level 70) : num_scope.

(** *** IEEE 754 binary64 *)

Module B64.
Definition prec : Z := 53%Z.
Definition emax : Z := 1024%Z.

Abbreviation t := spec_float (only parsing).

(** [m * 2^e], rounded to nearest even. *)
Definition of_Z2 (m e : Z) : t := binary_normalize prec emax m e false.
Definition of_Z (m : Z) : t := of_Z2 m 0%Z.

Definition is_nan (x : t) : bool :=
  match x with S754_nan => true | _ => false end.

Definition is_inf (x : t) : bool :=
  match x with S754_infinity _ => true | _ => false end.

Definition is_zero (x : t) : bool :=
  match x with S754_zero _ => true | _ => false end.

(** A number: neither NaN nor an infinity. *)
Definition is_finite (x : t) : bool :=
  match x with S754_zero _ | S754_finite _ _ _ => true | _ => false end.


(** The same value, or two zeros whatever their signs. *)
Definition alike (x y : t) : Prop :=
  x = y \/ (is_zero x = true /\ is_zero y = true).
End B64.

#[export] Instance binary64 : Number B64.t := {|
  zero   := S754_zero false;
  one    := B64.of_Z 1%Z;
  nan    := S754_nan;
  of_nat := fun n => B64.of_Z (Z.of_nat n);
  add    := SFadd B64.prec B64.emax;
  sub    := SFsub B64.prec B64.emax;
  mul    := SFmul B64.prec B64.emax;
  div    := SFdiv B64.prec B64.emax;
  sqrt   := SFsqrt B64.prec B64.emax;
  eqb    := SFeqb;
  ltb    := SFltb;
  leb    := SFleb;
  isnan  := B64.is_nan
|}.

(** *** Exact rationals with a missing-value sentinel

    [None] is the sentinel.  Arithmetic is exact; an operation without a
    rational result (a division by zero, the square root of a number that is
    not the square of a rational) gives the sentinel. *)

Module Exact.
Abbreviation t := (option Qc) (only parsing).

Definition lift2 (f : Qc -> Qc -> Qc) (x y : t) : t :=
  match x, y with
  | Some a, Some b => Some (f a b)
  | _, _ => None
  end.

Definition test2 (f : Qc -> Qc -> bool) (x y : t) : bool :=
  match x, y with
  | Some a, Some b => f a b
  | _, _ => false
  end.

Definition Qc_eqb (a b : Qc) : bool := Qeq_bool a b.
Definition Qc_leb (a b : Qc) : bool := Qle_bool a b.
Definition Qc_ltb (a b : Qc) : bool := negb (Qle_bool b a).

Definition ediv (x y : t) : t :=
  match x, y with
  | Some a, Some b => if Qc_eqb b (Q2Qc 0%Q) then None else Some (a / b)%Qc
  | _, _ => None
  end.

(** The exact square root of [n/d] (in lowest terms), when both are
    squares. *)
Definition esqrt (x : t) : t :=
  match x with
  | Some a =>
      let n := Qnum a in
      let d := Zpos (Qden a) in
      let (sn, rn) := Z.sqrtrem n in
      let (sd, rd) := Z.sqrtrem d in
      if (0 <=? n)%Z && (rn =? 0)%Z && (rd =? 0)%Z
      then Some (Q2Qc (Qmake sn (Z.to_pos sd)))
      else None
  | None => None
  end.

Definition of_Z (z : Z) : t := Some (Q2Qc (inject_Z z)).

Definition is_none (x : t) : bool :=
  match x with None => true | Some _ => false end.

End Exact.

#[export] Instance exact : Number Exact.t := {|
  zero   := Exact.of_Z 0%Z;
  one    := Exact.of_Z 1%Z;
  nan    := None;
  of_nat := fun n => Exact.of_Z (Z.of_nat n);
  add    := Exact.lift2 Qcplus;
  sub    := Exact.lift2 Qcminus;
  mul    := Exact.lift2 Qcmult;
  div    := Exact.ediv;
  sqrt   := Exact.esqrt;
  eqb    := Exact.test2 Exact.Qc_eqb;
  ltb    := Exact.test2 Exact.Qc_ltb;
  leb    := Exact.test2 Exact.Qc_leb;
  isnan  := Exact.is_none
|}.

(** ** Exceptions, warnings and results

    The Python code raises [ValueError] for an invalid interval (the
    specification's InvalidConfiguration, whose message quotes the interval),
    [check_dims] raises [ValueError] for a shape mismatch (ShapeMismatch),
    scipy raises [ValueError] when an interpolant cannot be built or
    evaluated, numpy raises [ValueError] when a reduction without identity
    runs along an axis of length zero, and reading an attribute that was
    never assigned raises [AttributeError]. *)

Section Results.
Variable F : Type.

Definition shape : Type := nat * nat * nat.      (* (n_ts, sz, d) *)

Inductive exn : Type :=
| InvalidConfiguration (value_range : F * F)
| ShapeMismatch (fit_dims dims : shape)
| InterpolationError
| ZeroSizeReduction
| AttributeError (attr : string).

Inductive warning : Type :=
| DeprecationWarning (param : string).

Definition result (A : Type) : Type := (exn + A)%type.

Definition ret {A} (a : A) : result A := inr a.
Definition raise {A} (e : exn) : result A := inl e.

Definition bind {A B} (m : result A) (k : A -> result B) : result B :=
  match m with
  | inl e => inl e
  | inr a => k a
  end.

(** A [for] loop whose body may raise: the first exception ends it. *)
Fixpoint mapM {A B} (f : A -> result B) (l : list A) : result (list B) :=
  match l with
  | [] => inr []
  | a :: l' =>
      match f a with
      | inl e => inl e
      | inr b =>
          match mapM f l' with
          | inl e => inl e
          | inr bs => inr (b :: bs)
          end
      end
  end.

(** A [for] loop that updates a variable and whose body may raise. *)
Fixpoint foldM {A B} (f : B -> A -> result B) (l : list A) (b : B)
  : result B :=
  match l with
  | [] => inr b
  | a :: l' =>
      match f b a with
      | inl e => inl e
      | inr b' => foldM f l' b'
      end
  end.
End Results.

Arguments InterpolationError {F}.
Arguments ZeroSizeReduction {F}.
Arguments AttributeError {F} attr.
Arguments ShapeMismatch {F} fit_dims dims.
Arguments ret {F A} a.
Arguments raise {F A} e.

Notation "x <- m ;; k" := (bind m (fun x => k))
  (at level 61, m at next level, right associativity).

(** ** The numpy and scipy functions the module calls *)

(** A dataset in memory: series, then time steps, then features. *)
Abbreviation series F := (list (list F)) (only parsing).
Abbreviation dataset F := (list (list (list F))) (only parsing).

Section Lists.
Context {A B C : Type}.

Fixpoint map2 (f : A -> B -> C) (l : list A) (l' : list B) : list C :=
  match l, l' with
  | a :: r, b :: r' => f a b :: map2 f r r'
  | _, _ => []
  end.

(** [l[k] = f(l[k])], in place. *)
Fixpoint update (k : nat) (f : A -> A) (l : list A) : list A :=
  match l, k with
  | [], _ => []
  | a :: l', O => f a :: l'
  | a :: l', S k' => a :: update k' f l'
  end.
End Lists.

(** *** numpy.add.reduce along one axis

    The result starts as the identity and the elements are added to it.
    When the axis is contiguous in memory the whole axis is handed to the
    inner loop, which adds to the result the pairwise sum of the axis
    (numpy/core/src/umath/loops_utils.h.src): fewer than eight elements are
    added from left to right; up to 128 elements go to eight accumulators,
    combined as a balanced tree, the elements after the last full block of
    eight being added one by one; a longer axis is split in two halves, the
    first of a length that is a multiple of eight.  When the axis is not
    contiguous (an array with two features or more, reduced along time) the
    inner loop runs over the features, and the steps of a column are added
    to the result one after the other.  Written over any carrier and
    addition, for the sums of numbers and for the shape of a sum. *)

Section AddReduce.
Context {A : Type} (z : A) (plus : A -> A -> A).

(** [for x in l: res += x] *)
Definition add_each (res : A) (l : list A) : A := fold_left plus l res.

(** [k] blocks of eight elements added to the eight accumulators [r]; what is
    left of [l] comes back with them. *)
Fixpoint add_blocks (k : nat) (r l : list A) : list A * list A :=
  match k with
  | O => (r, l)
  | S k' => add_blocks k' (map2 plus r (firstn 8 l)) (skipn 8 l)
  end.

(** The sum of a block of 8 to 128 elements. *)
Definition block_sum (l : list A) : A :=
  let '(r, rest) :=
    add_blocks (length l / 8 - 1) (firstn 8 l) (skipn 8 l) in
  let r j := nth j r z in
  add_each (plus (plus (plus (r 0) (r 1)) (plus (r 2) (r 3)))
                 (plus (plus (r 4) (r 5)) (plus (r 6) (r 7))))
           rest.

(** [fuel] bounds the depth of the recursion; the length of the list is
    enough. *)
Fixpoint pairwise_sum (fuel : nat) (l : list A) : A :=
  let n := length l in
  if n <? 8 then add_each z l
  else if n <=? 128 then block_sum l
  else
    match fuel with
    | O => block_sum l
    | S fuel' =>
        let n2 := n / 2 - (n / 2) mod 8 in
        plus (pairwise_sum fuel' (firstn n2 l))
             (pairwise_sum fuel' (skipn n2 l))
    end.

Definition add_reduce (contiguous : bool) (l : list A) : A :=
  if contiguous then plus z (pairwise_sum (length l) l)
  else add_each z l.
End AddReduce.

Section Numpy.
Context {F : Type} `{Number F}.
Local Open Scope num_scope.

(** [X[:, di]] of one series: the values of feature [di] along time. *)
Definition column (di : nat) (s : series F) : list F :=
  map (fun st => nth di st nan) s.

(** numpy.fmin and numpy.fmax: the smaller (larger) argument, a NaN being
    dropped when the other argument is a number.  Of two zeros of opposite
    signs the first is kept; which of the two numpy keeps depends on its
    version, and nothing below depends on the sign of a zero. *)
Definition fmin (a b : F) : F := if (a <=? b) || isnan b then a else b.
Definition fmax (a b : F) : F := if (a >=? b) || isnan b then a else b.

(** [ufunc.reduce] of an operation without identity along one column: the
    first element, combined with the others in turn.  A column without
    element never gets here, numpy refuses it before ([reduce_axis1] below);
    [empty] fills the hole. *)
Definition reduce (op : F -> F -> F) (empty : F) (l : list F) : F :=
  match l with
  | [] => empty
  | x :: l' => fold_left op l' x
  end.

Definition nanmin (l : list F) : F := reduce fmin nan l.
Definition nanmax (l : list F) : F := reduce fmax nan l.

(** numpy.sum along the time axis of one column; [contiguous] tells whether
    the column is contiguous in memory, which it is when the array has one
    feature. *)
Definition sum (contiguous : bool) (l : list F) : F :=
  add_reduce zero add contiguous l.

(** numpy.lib.nanfunctions._replace_nan *)
Definition _replace_nan (l : list F) (val : F) : list F :=
  map (fun x => if isnan x then val else x) l.

(** The number of entries that are not NaN. *)
Definition count (l : list F) : nat :=
  length (filter (fun x => negb (isnan x)) l).

(** numpy.nanmean: the sum of the column with its NaN replaced by 0, divided
    by the number of the other entries; NaN (0/0) when there is none. *)
Definition nanmean (contiguous : bool) (l : list F) : F :=
  sum contiguous (_replace_nan l zero) / of_nat (count l).

(** numpy.nanvar with [ddof = 0]. *)
Definition nanvar (contiguous : bool) (l : list F) : F :=
  let cnt := count l in
  let avg := sum contiguous (_replace_nan l zero) / of_nat cnt in
  let arr := map (fun x => if isnan x then zero else x - avg) l in
  let sqr := map (fun a => a * a) arr in
  let var := sum contiguous sqr / of_nat cnt in
  if (cnt <=? 0)%nat then nan else var.

Definition nanstd (contiguous : bool) (l : list F) : F :=
  sqrt (nanvar contiguous l).

(** numpy.linspace(start, stop, num), with [endpoint=True]. *)
Definition linspace (start stop : F) (num : nat) : list F :=
  let dv := (num - 1)%nat in
  let delta := stop - start in
  let y := map of_nat (seq 0 num) in
  let y :=
    if (0 <? dv)%nat then
      let step := delta / of_nat dv in
      if step ==? zero
      then map (fun v => (v / of_nat dv) * delta) y
      else map (fun v => v * step) y
    else map (fun v => v * delta) y in
  let y := map (fun v => v + start) y in
  if (1 <? num)%nat then removelast y ++ [stop] else y.

(** *** scipy.interpolate.interp1d(x, y, kind="slinear")

    The interpolant is a spline of degree one through the nodes.  It needs
    as many values as nodes, strictly increasing nodes and at least two of
    them; it is evaluated only inside the range of the nodes (the default
    [bounds_error]).  The nodes this module passes come from [linspace] in
    increasing order. *)

Fixpoint strictly_increasing (x : list F) : bool :=
  match x with
  | xa :: (xb :: _) as x' => (xa <? xb) && strictly_increasing x'
  | _ => true
  end.

(** The two basis functions of degree one on [[xa, xb]] at [q], and the
    value of the spline there. *)
Definition basis (xa xb q : F) : F * F :=
  let w := one / (xb - xa) in
  let h0 := zero + w * (xb - q) in
  let h1 := w * (q - xa) in
  (h0, h1).

Definition deboor (xa xb ya yb q : F) : F :=
  let '(h0, h1) := basis xa xb q in
  (zero + ya * h0) + yb * h1.

(** The interval of [q] is the first one whose right end is above [q],
    or the last interval. *)
Fixpoint evaluate_spline (x y : list F) (q : F) : F :=
  match x, y with
  | xa :: ((xb :: x'') as x'), ya :: ((yb :: _) as y') =>
      match x'' with
      | [] => deboor xa xb ya yb q
      | _ :: _ =>
          if q <? xb then deboor xa xb ya yb q
          else evaluate_spline x' y' q
      end
  | _, _ => nan
  end.

Definition out_of_bounds (x : list F) (q : F) : bool :=
  (q <? hd nan x) || (last x nan <? q).

Definition interp1d (x y : list F)
  : result F (list F -> result F (list F)) :=
  if negb (length x =? length y)%nat then raise InterpolationError
  else if negb (strictly_increasing x) then raise InterpolationError
  else if (length x <? 2)%nat then raise InterpolationError
  else ret (fun x_new =>
              if existsb (out_of_bounds x) x_new
              then raise InterpolationError
              else ret (map (evaluate_spline x y) x_new)).
End Numpy.

(** Arrays of shape [(n, sz, d)] and [(n, 1, d)]: element-wise operations
    with numpy's broadcasting along the time axis and against a scalar. *)

Section Broadcasting.
Context {F : Type}.

(** [op(X, stat)] for [X] of shape [(n, sz, d)] and [stat] of shape
    [(n, 1, d)], kept as one row per series. *)
Definition broadcast (op : F -> F -> F)
           (X : list (list (list F))) (stat : list (list F))
  : list (list (list F)) :=
  map2 (fun Xi row => map (fun st => map2 op st row) Xi) X stat.

(** [op(X, c)] for a scalar [c]. *)
Definition scalar (op : F -> F -> F) (X : list (list (list F))) (c : F)
  : list (list (list F)) :=
  map (map (map (fun x => op x c))) X.

(** [g(X, axis=1)[:, newaxis, :]] for a reduction [g] along the time
    axis of an array of shape [(n, sz, d)]: one row of [d] values per
    series.  [col di Xi] is [Xi[:, di]]. *)
Definition along_axis1 (col : nat -> list (list F) -> list F)
           (g : list F -> F) (d : nat) (X : list (list (list F)))
  : list (list F) :=
  map (fun Xi => map (fun di => g (col di Xi)) (seq 0 d)) X.

(** The columns of one output series, written one feature at a time
    ([X_out[i, :, di] = ...]), read back as [sz] time steps. *)
Definition from_columns (dflt : F) (sz : nat) (cols : list (list F))
  : list (list F) :=
  map (fun t => map (fun c => nth t c dflt) cols) (seq 0 sz).

(** numpy.empty(shape): an array of that shape whose entries are whatever
    the memory held, here [uninit]. *)
Definition empty (uninit : nat -> nat -> nat -> F) (shape : nat * nat * nat)
  : list (list (list F)) :=
  let '(n_ts, sz, d) := shape in
  map (fun i => map (fun t => map (uninit i t) (seq 0 d)) (seq 0 sz))
      (seq 0 n_ts).

(** [X_out[i] = row] for an array [row] of shape [(1, d)]: the row is
    written to every time step of series [i]. *)
Definition assign_series (i : nat) (row : list F)
           (X_out : list (list (list F))) : list (list (list F)) :=
  update i (map (fun _ => row)) X_out.

(** [X_out[i, :, di] = col] *)
Definition assign_column (i di : nat) (col : list F)
           (X_out : list (list (list F))) : list (list (list F)) :=
  update i (fun Xi => map2 (fun st v => update di (fun _ => v) st) Xi col)
         X_out.
End Broadcasting.

(** ** The functions of tslearn.utils and sklearn the module calls *)

Section Utils.
Context {F : Type} `{Number F}.

(** [X.shape].  The number of features is read off the first time step of
    the first series: nested lists hold no feature count for an array
    without any time step, whose [d] is 0 here. *)
Definition shape_of (X : dataset F) : shape :=
  (length X, length (hd [] X), length (hd [] (hd [] X))).

(** sklearn's [check_array(X, allow_nd=True, force_all_finite=False)]
    converts its argument to an array and accepts NaN and infinite
    entries.  It raises on what is not an array with at least one series
    (nested lists of unequal lengths, no series at all); the datasets of
    this development are arrays ([is_array] below), and on them it returns
    its argument. *)
Definition check_array (X : dataset F) : dataset F := X.

(** Modelled from the spec: [ts_size] of tslearn.utils is not among the
    sources.  A step of padding holds the missing-value sentinel in every
    feature; "the true length of a series is recoverable by scanning from
    the end for the first non-sentinel step". *)
Definition is_padding (st : list F) : bool := forallb isnan st.

Fixpoint ts_size (s : series F) : nat :=
  match s with
  | [] => O
  | st :: s' =>
      match ts_size s' with
      | O => if is_padding st then O else 1%nat
      | S n => S (S n)
      end
  end.

(** Modelled from the spec: [to_time_series_dataset] of tslearn.utils (the
    Dataset Normalizer) is not among the sources.  It gives the canonical
    layout: each series keeps its valid steps, and "shorter series are
    right-padded with a missing-value sentinel up to the dataset's maximum
    length".  [canonical_series X ts] is the series [ts] of [X] in the
    layout of [X]. *)
Definition canonical_series (X : dataset F) (ts : series F) : series F :=
  let max_sz := fold_right Nat.max 0 (map ts_size X) in
  let d := length (hd [] (hd [] X)) in
  firstn (ts_size ts) ts ++ repeat (repeat nan d) (max_sz - ts_size ts).

Definition to_time_series_dataset (X : dataset F) : dataset F :=
  map (canonical_series X) X.

(** Modelled from the spec: [check_equal_size] of tslearn.utils is not
    among the sources; it "reports whether all series share a common
    length". *)
Definition check_equal_size (X : dataset F) : bool :=
  match X with
  | [] => true
  | ts :: X' => forallb (fun ts' => ts_size ts' =? ts_size ts) X'
  end.

(** Modelled from the spec: [check_dims] of tslearn.utils (the Shape
    Validator) is not among the sources.  A transform call must be
    "shape-compatible (same d, same or broadcast-compatible series
    count/length) or fail". *)
Definition broadcast_compatible (a b : nat) : bool :=
  (a =? b) || (a =? 1) || (b =? 1).

Definition shape_compatible (fit_dims dims : shape) : bool :=
  let '(n0, sz0, d0) := fit_dims in
  let '(n, sz, d) := dims in
  (d0 =? d) && broadcast_compatible n0 n && broadcast_compatible sz0 sz.

Definition check_dims (X : dataset F) (X_fit_dims : shape)
  : result F (dataset F) :=
  if shape_compatible X_fit_dims (shape_of X) then ret X
  else raise (ShapeMismatch X_fit_dims (shape_of X)).

(** Reading an attribute that may not have been assigned yet. *)
Definition getattr {A} (attr : string) (v : option A) : result F A :=
  match v with
  | Some a => ret a
  | None => raise (AttributeError attr)
  end.

(** [g(X, axis=1)[:, numpy.newaxis, :]] for [g] one of numpy.nanmin and
    numpy.nanmax, which reduce with numpy.fmin and numpy.fmax: these have no
    identity, and numpy raises [ValueError] when the time axis has length
    zero, whatever the other two lengths. *)
Definition reduce_axis1 (g : list F -> F) (X : dataset F)
  : result F (list (list F)) :=
  let '(n_ts, sz, d) := shape_of X in
  if sz =? 0 then raise ZeroSizeReduction
  else ret (along_axis1 column g d X).
End Utils.

(** ** class TimeSeriesResampler *)

Module TimeSeriesResampler.
Record t : Type := { sz_ : nat }.

Definition __init__ (sz : nat) : t := {| sz_ := sz |}.

Section Methods.
Context {F : Type} `{Number F}.

Definition fit (self : t) (X : dataset F) : t := self.

Definition _transform_unit_sz (self : t) (X : dataset F) : dataset F :=
  let '(n_ts, sz, d) := shape_of X in
  map (fun Xi =>
         (* a (1, d) array, assigned to the (sz_, d) array X_out[i] *)
         repeat (map (fun di => nanmean (d =? 1) (column di Xi)) (seq 0 d))
                (sz_ self))
      X.

Definition transform (self : t) (X : dataset F) : result F (dataset F) :=
  let X_ := to_time_series_dataset X in
  if sz_ self =? 1 then ret (_transform_unit_sz self X_)
  else
    let '(n_ts, sz, d) := shape_of X_ in
    let equal_size := check_equal_size X_ in
    mapM (fun Xi =>
            let xnew := linspace zero one (sz_ self) in
            let sz := if equal_size then sz else ts_size Xi in
            cols <- mapM (fun di =>
                            f <- interp1d (linspace zero one sz)
                                          (column di (firstn sz Xi)) ;;
                            f xnew)
                         (seq 0 d) ;;
            ret (from_columns nan (sz_ self) cols))
         X_.

(** The two methods once more, with the output array as the code has it:
    allocated by numpy.empty, so holding arbitrary values [uninit], and
    written in place by the loops.  [_transform_unit_sz] and [transform]
    above are what these loops leave in the array. *)
Definition _transform_unit_sz_in_place (uninit : nat -> nat -> nat -> F)
           (self : t) (X : dataset F) : dataset F :=
  let '(n_ts, sz, d) := shape_of X in
  let X_out := empty uninit (n_ts, sz_ self, d) in
  fold_left (fun X_out i =>
               assign_series i
                 (map (fun di => nanmean (d =? 1) (column di (nth i X [])))
                      (seq 0 d))
                 X_out)
            (seq 0 n_ts) X_out.

Definition transform_in_place (uninit : nat -> nat -> nat -> F)
           (self : t) (X : dataset F) : result F (dataset F) :=
  let X_ := to_time_series_dataset X in
  if sz_ self =? 1 then ret (_transform_unit_sz_in_place uninit self X_)
  else
    let '(n_ts, sz, d) := shape_of X_ in
    let equal_size := check_equal_size X_ in
    let X_out := empty uninit (n_ts, sz_ self, d) in
    foldM (fun X_out i =>
             let xnew := linspace zero one (sz_ self) in
             let sz := if equal_size then sz else ts_size (nth i X_ []) in
             foldM (fun X_out di =>
                      f <- interp1d (linspace zero one sz)
                                    (column di (firstn sz (nth i X_ []))) ;;
                      col <- f xnew ;;
                      ret (assign_column i di col X_out))
                   (seq 0 d) X_out)
          (seq 0 n_ts) X_out.
End Methods.
End TimeSeriesResampler.

(** ** class TimeSeriesScalerMinMax *)

Module TimeSeriesScalerMinMax.
Section Methods.
Context {F : Type} `{Number F}.
Local Open Scope num_scope.

Record t : Type := {
  value_range : F * F;
  min : option F;
  max : option F;
  _X_fit_dims : option shape       (* absent until [fit] has run *)
}.

Definition __init__ (value_range : F * F) (min max : option F) : t :=
  {| value_range := value_range; min := min; max := max;
     _X_fit_dims := None |}.

Definition fit (self : t) (X : dataset F) : t :=
  let X := check_array X in
  {| value_range := value_range self; min := min self; max := max self;
     _X_fit_dims := Some (shape_of X) |}.

(** The first lines of [transform]: the interval in force, which is
    [value_range] with each end replaced by the deprecated parameter when
    that one is given, and the warnings this emits. *)
Definition effective_range (self : t) : list warning * (F * F) :=
  let value_range := value_range self in
  let '(w1, value_range) :=
    match min self with
    | Some m => ([DeprecationWarning "min"], (m, snd value_range))
    | None => ([], value_range)
    end in
  let '(w2, value_range) :=
    match max self with
    | Some m => ([DeprecationWarning "max"], (fst value_range, m))
    | None => ([], value_range)
    end in
  (w1 ++ w2, value_range).

(** The last lines of [transform], from [range_t] on: the arithmetic. *)
Definition scale (value_range : F * F) (X_ : dataset F)
           (min_t max_t : list (list F)) : dataset F :=
  let range_t := map2 (map2 sub) max_t min_t in
  let nomin := scalar mul (broadcast sub X_ min_t)
                      (snd value_range - fst value_range) in
  scalar add (broadcast div nomin range_t) (fst value_range).

Definition transform (self : t) (X : dataset F)
  : list warning * result F (dataset F) :=
  let '(warnings, value_range) := effective_range self in
  (warnings,
   if fst value_range >=? snd value_range
   then raise (InvalidConfiguration value_range)
   else
     let X := check_array X in
     X_fit_dims <- getattr "_X_fit_dims" (_X_fit_dims self) ;;
     X <- check_dims X X_fit_dims ;;
     let X_ := to_time_series_dataset X in
     min_t <- reduce_axis1 nanmin X_ ;;
     max_t <- reduce_axis1 nanmax X_ ;;
     ret (scale value_range X_ min_t max_t)).

(** What [transform] returns once the interval, the shape and the time axis
    have been accepted. *)
Definition rescale (value_range : F * F) (X_ : dataset F) : dataset F :=
  let '(n_ts, sz, d) := shape_of X_ in
  scale value_range X_ (along_axis1 column nanmin d X_)
        (along_axis1 column nanmax d X_).
End Methods.
Arguments t F : clear implicits.
End TimeSeriesScalerMinMax.

(** ** class TimeSeriesScalerMeanVariance *)

Module TimeSeriesScalerMeanVariance.
Section Methods.
Context {F : Type} `{Number F}.
Local Open Scope num_scope.

Record t : Type := {
  mu : F;
  std : F;
  _X_fit_dims : option shape       (* absent until [fit] has run *)
}.

Definition __init__ (mu std : F) : t :=
  {| mu := mu; std := std; _X_fit_dims := None |}.

Definition fit (self : t) (X : dataset F) : t :=
  let X := check_array X in
  {| mu := mu self; std := std self; _X_fit_dims := Some (shape_of X) |}.

(** [std_t[std_t == 0.] = 1.] *)
Definition guard (std_t : F) : F :=
  if std_t ==? zero then one else std_t.

(** The last lines of [transform], from [mean_t] on. *)
Definition standardize (mu std : F) (X_ : dataset F) : dataset F :=
  let '(n_ts, sz, d) := shape_of X_ in
  let mean_t := along_axis1 column (nanmean (d =? 1)) d X_ in
  let std_t := along_axis1 column (nanstd (d =? 1)) d X_ in
  let std_t := map (map guard) std_t in
  scalar add
         (broadcast div (scalar mul (broadcast sub X_ mean_t) std) std_t)
         mu.

Definition transform (self : t) (X : dataset F) : result F (dataset F) :=
  let X := check_array X in
  X_fit_dims <- getattr "_X_fit_dims" (_X_fit_dims self) ;;
  X <- check_dims X X_fit_dims ;;
  let X_ := to_time_series_dataset X in
  ret (standardize (mu self) (std self) X_).
End Methods.
Arguments t F : clear implicits.
End TimeSeriesScalerMeanVariance.

(** ** Vocabulary of the statements *)

(** The shape of a sum: which terms are added, in which order and
    grouping. *)
Inductive addition (A : Type) : Type :=
| Term (x : A)
| Plus (a b : addition A).

Fixpoint terms {A} (a : addition A) : list A :=
  match a with
  | Term x => [x]
  | Plus a b => terms a ++ terms b
  end.

(** The entries that are present. *)
Fixpoint present {A} (l : list (option A)) : list A :=
  match l with
  | [] => []
  | Some x :: l' => x :: present l'
  | None :: l' => present l'
  end.

(** The terms of a sum that are present, in order. *)
Definition known_terms {A} (a : addition (option A)) : list A :=
  present (terms a).

Section Vocabulary.
Context {F : Type} `{Number F}.
Local Open Scope num_scope.

Fixpoint value (a : addition F) : F :=
  match a with
  | Term x => x
  | Plus a b => value a + value b
  end.

(** A sum some of whose terms are the 0 numpy starts from or puts in the
    place of a NaN: [None] stands for such a 0. *)
Definition or_zero (o : option F) : F :=
  match o with Some x => x | None => zero end.

Fixpoint value_or_zero (a : addition (option F)) : F :=
  match a with
  | Term o => or_zero o
  | Plus a b => value_or_zero a + value_or_zero b
  end.

(** [None] for a NaN. *)
Definition known (x : F) : option F := if isnan x then None else Some x.

(** [Y[i, t, di]] *)
Definition at3 (Y : dataset F) (i t di : nat) : F :=
  nth di (nth t (nth i Y []) []) nan.

(** Position [(i, t, di)] exists in [X]. *)
Definition position (X : dataset F) (i t di : nat) : Prop :=
  i < length X /\ t < length (nth i X []) /\
  di < length (nth t (nth i X []) []).

(** Position [(i, t, di)] exists in [X] and [di] is a feature index of
    its shape. *)
Definition in_range (X : dataset F) (i t di : nat) : Prop :=
  position X i t di /\ di < snd (shape_of X).

(** A column all of whose known values are the one value [c], at least
    one being known: a series constant in that dimension, or with a single
    valid sample. *)
Definition constant_column (col : list F) (c : F) : Prop :=
  isnan c = false /\ In c col /\
  Forall (fun x => isnan x = true \/ x = c) col.

(** The known values of a column, in order. *)
Definition valid (col : list F) : list F :=
  filter (fun x => negb (isnan x)) col.

(** [m] is the least (greatest) known value of the column, or the
    sentinel when nothing is known. *)
Definition is_min_valid (col : list F) (m : F) : Prop :=
  match valid col with
  | [] => m = nan
  | _ => In m (valid col) /\ Forall (fun x => (m <=? x) = true) (valid col)
  end.

Definition is_max_valid (col : list F) (m : F) : Prop :=
  match valid col with
  | [] => m = nan
  | _ => In m (valid col) /\ Forall (fun x => (x <=? m) = true) (valid col)
  end.

(** The affine map of the range scaler, in the order the specification
    writes it. *)
Definition affine_spec (lo hi mn mx x : F) : F :=
  (x - mn) / (mx - mn) * (hi - lo) + lo.

(** The same map in the order the code evaluates it. *)
Definition affine_code (lo hi mn mx x : F) : F :=
  (x - mn) * (hi - lo) / (mx - mn) + lo.

(** The time axis of an array with one feature is contiguous in memory. *)
Definition one_feature (X : dataset F) : bool := snd (shape_of X) =? 1.

(** The length of the time axis. *)
Definition time_steps (X : dataset F) : nat := length (hd [] X).

(** A dataset that is an array: at least one series, every series of the
    same length, every time step of the same width. *)
Definition is_array (X : dataset F) : Prop :=
  let '(n_ts, sz, d) := shape_of X in
  0 < n_ts /\
  Forall (fun Xi => length Xi = sz /\ Forall (fun st => length st = d) Xi) X.

(** Equal as numbers ([==], which identifies the two zeros), or both NaN. *)
Definition same_number (x y : F) : bool :=
  (x ==? y) || (isnan x && isnan y).

(** [total] is a floating-point sum of the numbers [ts]: the value of some
    addition of exactly these terms, in some order and grouping; zero for no
    term. *)
Definition is_sum_of (ts : list F) (total : F) : Prop :=
  match ts with
  | [] => (total ==? zero) = true
  | _ :: _ =>
      exists a : addition F,
        Permutation (terms a) ts /\ same_number (value a) total = true
  end.





End Vocabulary.

(** *** The grids of binary64

    What the endpoints of the resampler rest on is checked by computation on
    the grid of every size from 2 to [max_size]: the grid is regular and
    starts at [+0]; at 0 the interpolant weighs the first value by 1 or by
    [1 - 2^-53] and the second by [+0]; at 1 it weighs the last value by 1 or
    by [1 - 2^-53] and the one before by [+0]. *)




(** * Properties *)

(** ** Lists and broadcasting *)

Section ListFacts.
Context {A B C : Type}.

Lemma map2_length (f : A -> B -> C) l l' :
  length (map2 f l l') = Nat.min (length l) (length l').
Proof.
  revert l'; induction l as [|a l IH]; intros [|b l']; simpl; auto.
Qed.

Lemma map2_nth (f : A -> B -> C) l l' k da db dc :
  k < length l -> k < length l' ->
  nth k (map2 f l l') dc = f (nth k l da) (nth k l' db).
Proof.
  revert l' k; induction l as [|a l IH]; intros [|b l'] [|k]; simpl; intros;
    try lia; auto.
  apply IH; lia.
Qed.

Lemma nth_map_seq (g : nat -> A) d k dflt :
  k < d -> nth k (map g (seq 0 d)) dflt = g k.
Proof.
  intros Hk.
  rewrite (nth_indep _ dflt (g 0)) by (rewrite length_map, length_seq; lia).
  rewrite (map_nth g (seq 0 d) 0 k), seq_nth; auto.
Qed.

Lemma nth_map_in (g : A -> B) l k da db :
  k < length l -> nth k (map g l) db = g (nth k l da).
Proof.
  revert k; induction l as [|a l IH]; intros [|k]; simpl; intros; try lia; auto.
  apply IH; lia.
Qed.
End ListFacts.

Section BroadcastFacts.
Context {F : Type} `{Number F}.

Lemma along_axis1_length g d (X : dataset F) :
  length (along_axis1 column g d X) = length X.
Proof. apply length_map. Qed.

Lemma along_axis1_nth g d (X : dataset F) i :
  i < length X ->
  nth i (along_axis1 column g d X) [] =
  map (fun di => g (column di (nth i X []))) (seq 0 d).
Proof.
  intros Hi. unfold along_axis1.
  now rewrite (nth_map_in _ X [] []) by assumption.
Qed.

Lemma along_axis1_at g d (X : dataset F) i di :
  i < length X -> di < d ->
  nth di (nth i (along_axis1 column g d X) []) nan = g (column di (nth i X [])).
Proof.
  intros Hi Hd. rewrite along_axis1_nth by assumption.
  now rewrite (nth_map_seq (fun k => g (column k (nth i X []))) nan Hd).
Qed.

Lemma along_axis1_width g d (X : dataset F) i :
  i < length X -> length (nth i (along_axis1 column g d X) []) = d.
Proof.
  intros Hi. rewrite along_axis1_nth by assumption.
  now rewrite length_map, length_seq.
Qed.

Lemma broadcast_nth op (X : dataset F) stat i :
  i < length X -> length stat = length X ->
  nth i (broadcast op X stat) [] =
  map (fun st => map2 op st (nth i stat [])) (nth i X []).
Proof.
  intros Hi E. unfold broadcast.
  now rewrite (map2_nth _ X stat [] [] []) by lia.
Qed.

Lemma broadcast_step op (X : dataset F) stat i t :
  i < length X -> length stat = length X -> t < length (nth i X []) ->
  nth t (nth i (broadcast op X stat) []) [] =
  map2 op (nth t (nth i X []) []) (nth i stat []).
Proof.
  intros Hi E Ht. rewrite broadcast_nth by assumption.
  now rewrite (nth_map_in _ _ [] []) by assumption.
Qed.

Lemma broadcast_position op (X : dataset F) stat i t di :
  position X i t di -> length stat = length X ->
  di < length (nth i stat []) ->
  position (broadcast op X stat) i t di.
Proof.
  intros (Hi & Ht & Hd) E Hd'.
  assert (Hn : length (broadcast op X stat) = length X).
  { unfold broadcast. rewrite map2_length, E. apply Nat.min_id. }
  split; [| split].
  - now rewrite Hn.
  - rewrite broadcast_nth by assumption. now rewrite length_map.
  - rewrite broadcast_step by assumption. rewrite map2_length. lia.
Qed.

Lemma broadcast_at op (X : dataset F) stat i t di :
  position X i t di -> length stat = length X ->
  di < length (nth i stat []) ->
  at3 (broadcast op X stat) i t di =
  op (at3 X i t di) (nth di (nth i stat []) nan).
Proof.
  intros (Hi & Ht & Hd) E Hd'. unfold at3.
  rewrite broadcast_step by assumption.
  now apply map2_nth.
Qed.

Lemma scalar_nth op (X : dataset F) c i :
  i < length X ->
  nth i (scalar op X c) [] = map (map (fun x => op x c)) (nth i X []).
Proof.
  intros Hi. unfold scalar.
  now rewrite (nth_map_in _ X [] []) by assumption.
Qed.

Lemma scalar_step op (X : dataset F) c i t :
  i < length X -> t < length (nth i X []) ->
  nth t (nth i (scalar op X c) []) [] =
  map (fun x => op x c) (nth t (nth i X []) []).
Proof.
  intros Hi Ht. rewrite scalar_nth by assumption.
  now rewrite (nth_map_in _ _ [] []) by assumption.
Qed.

Lemma scalar_position op (X : dataset F) c i t di :
  position X i t di -> position (scalar op X c) i t di.
Proof.
  intros (Hi & Ht & Hd). unfold position.
  rewrite scalar_step by assumption.
  rewrite scalar_nth by assumption.
  unfold scalar. now rewrite !length_map.
Qed.

Lemma scalar_at op (X : dataset F) c i t di :
  position X i t di ->
  at3 (scalar op X c) i t di = op (at3 X i t di) c.
Proof.
  intros (Hi & Ht & Hd). unfold at3. rewrite scalar_step by assumption.
  now rewrite (nth_map_in _ _ nan nan) by assumption.
Qed.

(** The two scalers share one pattern: [(X - a) * r / b + c], with [a]
    and [b] of shape [(n, 1, d)]. *)
Lemma scaled_at (a b : list (list F)) r c (X : dataset F) i t di :
  position X i t di ->
  length a = length X -> length b = length X ->
  di < length (nth i a []) -> di < length (nth i b []) ->
  at3 (scalar add (broadcast div (scalar mul (broadcast sub X a) r) b) c)
      i t di
  = add (div (mul (sub (at3 X i t di) (nth di (nth i a []) nan)) r)
             (nth di (nth i b []) nan))
        c.
Proof.
  intros P La Lb Wa Wb.
  assert (P1 : position (broadcast sub X a) i t di).
  { now apply broadcast_position. }
  assert (P2 := scalar_position mul r P1).
  assert (Lb' : length b = length (scalar mul (broadcast sub X a) r)).
  { unfold scalar, broadcast.
    rewrite length_map, map2_length, La, Lb. symmetry. apply Nat.min_id. }
  rewrite scalar_at by (now apply broadcast_position).
  rewrite broadcast_at by auto.
  rewrite scalar_at by auto.
  now rewrite broadcast_at by auto.
Qed.

Lemma scaled_position (a b : list (list F)) r c (X : dataset F) i t di :
  position X i t di ->
  length a = length X -> length b = length X ->
  di < length (nth i a []) -> di < length (nth i b []) ->
  position (scalar add (broadcast div (scalar mul (broadcast sub X a) r) b) c)
           i t di.
Proof.
  intros P La Lb Wa Wb.
  apply scalar_position, broadcast_position; auto.
  - now apply scalar_position, broadcast_position.
  - unfold scalar, broadcast.
    rewrite length_map, map2_length, La, Lb. symmetry. apply Nat.min_id.
Qed.
End BroadcastFacts.

(** ** What the two scalers compute at each position *)

Section ScalerFacts.
Context {F : Type} `{Number F}.
Local Open Scope num_scope.

Lemma rescale_at lo hi (X_ : dataset F) i t di :
  in_range X_ i t di ->
  at3 (TimeSeriesScalerMinMax.rescale (lo, hi) X_) i t di =
  affine_code lo hi (nanmin (column di (nth i X_ [])))
              (nanmax (column di (nth i X_ []))) (at3 X_ i t di).
Proof.
  intros [P Hd].
  unfold TimeSeriesScalerMinMax.rescale, TimeSeriesScalerMinMax.scale.
  destruct (shape_of X_) as [[n_ts sz] d] eqn:E. simpl in Hd |- *.
  assert (Hi : i < length X_) by apply P.
  rewrite scaled_at; auto.
  - unfold affine_code. f_equal. f_equal.
    + now rewrite along_axis1_at.
    + rewrite (map2_nth _ _ _ [] [] []) by (now rewrite along_axis1_length).
      rewrite (map2_nth _ _ _ nan nan nan) by (now rewrite along_axis1_width).
      now rewrite !along_axis1_at.
  - apply along_axis1_length.
  - rewrite map2_length, !along_axis1_length. apply Nat.min_id.
  - now rewrite along_axis1_width.
  - rewrite (map2_nth _ _ _ [] [] []) by (now rewrite along_axis1_length).
    rewrite map2_length, !along_axis1_width by assumption. lia.
Qed.

Lemma rescale_position vr (X_ : dataset F) i t di :
  in_range X_ i t di ->
  position (TimeSeriesScalerMinMax.rescale vr X_) i t di.
Proof.
  intros [P Hd].
  unfold TimeSeriesScalerMinMax.rescale, TimeSeriesScalerMinMax.scale.
  destruct (shape_of X_) as [[n_ts sz] d] eqn:E. simpl in Hd |- *.
  assert (Hi : i < length X_) by apply P.
  apply scaled_position; auto.
  - apply along_axis1_length.
  - rewrite map2_length, !along_axis1_length. apply Nat.min_id.
  - now rewrite along_axis1_width.
  - rewrite (map2_nth _ _ _ [] [] []) by (now rewrite along_axis1_length).
    rewrite map2_length, !along_axis1_width by assumption. lia.
Qed.

Lemma standardize_position mu std (X_ : dataset F) i t di :
  in_range X_ i t di ->
  position (TimeSeriesScalerMeanVariance.standardize mu std X_) i t di.
Proof.
  intros [P Hd]. unfold TimeSeriesScalerMeanVariance.standardize.
  destruct (shape_of X_) as [[n_ts sz] d] eqn:E. simpl in Hd |- *.
  assert (Hi : i < length X_) by apply P.
  apply scaled_position; auto.
  - apply along_axis1_length.
  - now rewrite length_map, along_axis1_length.
  - now rewrite along_axis1_width.
  - rewrite (nth_map_in _ _ [] []) by (now rewrite along_axis1_length).
    now rewrite length_map, along_axis1_width.
Qed.

Lemma standardize_at mu std (X_ : dataset F) i t di :
  in_range X_ i t di ->
  at3 (TimeSeriesScalerMeanVariance.standardize mu std X_) i t di =
  (at3 X_ i t di - nanmean (one_feature X_) (column di (nth i X_ []))) * std
  / TimeSeriesScalerMeanVariance.guard
      (nanstd (one_feature X_) (column di (nth i X_ [])))
  + mu.
Proof.
  intros [P Hd]. unfold TimeSeriesScalerMeanVariance.standardize, one_feature.
  destruct (shape_of X_) as [[n_ts sz] d] eqn:E. simpl in Hd |- *.
  assert (Hi : i < length X_) by apply P.
  assert (N : nth i (map (map TimeSeriesScalerMeanVariance.guard)
                         (along_axis1 column (nanstd (d =? 1)) d X_)) [] =
              map TimeSeriesScalerMeanVariance.guard
                  (nth i (along_axis1 column (nanstd (d =? 1)) d X_) [])).
  { rewrite (nth_map_in _ _ [] []); auto. now rewrite along_axis1_length. }
  rewrite scaled_at; auto.
  - f_equal. f_equal.
    + now rewrite along_axis1_at.
    + rewrite N, (nth_map_in _ _ nan nan) by (now rewrite along_axis1_width).
      now rewrite along_axis1_at.
  - apply along_axis1_length.
  - now rewrite length_map, along_axis1_length.
  - now rewrite along_axis1_width.
  - now rewrite N, length_map, along_axis1_width.
Qed.

(** Where the computed standard deviation is zero, the division is by 1. *)
Lemma zero_std_substituted mu std (X_ : dataset F) i t di :
  in_range X_ i t di ->
  (nanstd (one_feature X_) (column di (nth i X_ [])) ==? zero) = true ->
  at3 (TimeSeriesScalerMeanVariance.standardize mu std X_) i t di =
  (at3 X_ i t di - nanmean (one_feature X_) (column di (nth i X_ []))) * std
  / one + mu.
Proof.
  intros R Z. rewrite standardize_at by assumption.
  unfold TimeSeriesScalerMeanVariance.guard. now rewrite Z.
Qed.

(** The range scaler returns a dataset as soon as the interval is accepted,
    [fit] has run, the shape validator accepts the input and the time axis
    of the normalized input is not empty; with an empty time axis
    numpy.nanmin raises. *)
Lemma reduce_axis1_ok (g : list F -> F) (X_ : dataset F) :
  0 < time_steps X_ ->
  reduce_axis1 g X_ = inr (along_axis1 column g (snd (shape_of X_)) X_).
Proof.
  unfold reduce_axis1, time_steps, shape_of. simpl. intros L.
  destruct (length (hd [] X_)); [lia | reflexivity].
Qed.

Lemma reduce_axis1_empty (g : list F -> F) (X_ : dataset F) :
  time_steps X_ = 0 -> reduce_axis1 g X_ = inl ZeroSizeReduction.
Proof.
  unfold reduce_axis1, time_steps, shape_of. simpl. now intros ->.
Qed.

Lemma minmax_transform_ok (self : TimeSeriesScalerMinMax.t F) X w lo hi fd :
  TimeSeriesScalerMinMax.effective_range self = (w, (lo, hi)) ->
  (lo >=? hi) = false ->
  TimeSeriesScalerMinMax._X_fit_dims self = Some fd ->
  shape_compatible fd (shape_of X) = true ->
  0 < time_steps (to_time_series_dataset X) ->
  TimeSeriesScalerMinMax.transform self X =
  (w, inr (TimeSeriesScalerMinMax.rescale (lo, hi) (to_time_series_dataset X))).
Proof.
  intros E V Fd C L. unfold TimeSeriesScalerMinMax.transform.
  rewrite E. simpl. rewrite V, Fd. simpl.
  unfold check_dims, check_array. rewrite C. simpl.
  rewrite !reduce_axis1_ok by assumption. reflexivity.
Qed.

Lemma minmax_transform_empty (self : TimeSeriesScalerMinMax.t F) X w lo hi fd :
  TimeSeriesScalerMinMax.effective_range self = (w, (lo, hi)) ->
  (lo >=? hi) = false ->
  TimeSeriesScalerMinMax._X_fit_dims self = Some fd ->
  shape_compatible fd (shape_of X) = true ->
  time_steps (to_time_series_dataset X) = 0 ->
  TimeSeriesScalerMinMax.transform self X = (w, inl ZeroSizeReduction).
Proof.
  intros E V Fd C L. unfold TimeSeriesScalerMinMax.transform.
  rewrite E. simpl. rewrite V, Fd. simpl.
  unfold check_dims, check_array. rewrite C. simpl.
  now rewrite reduce_axis1_empty.
Qed.

Lemma meanvariance_transform_ok (self : TimeSeriesScalerMeanVariance.t F) X fd :
  TimeSeriesScalerMeanVariance._X_fit_dims self = Some fd ->
  shape_compatible fd (shape_of X) = true ->
  TimeSeriesScalerMeanVariance.transform self X =
  inr (TimeSeriesScalerMeanVariance.standardize
         (TimeSeriesScalerMeanVariance.mu self)
         (TimeSeriesScalerMeanVariance.std self)
         (to_time_series_dataset X)).
Proof.
  intros Fd C. unfold TimeSeriesScalerMeanVariance.transform.
  rewrite Fd. simpl. unfold check_dims, check_array. now rewrite C.
Qed.

(** A shape is compatible with itself: a scaler accepts the dataset it
    was fitted on. *)
Lemma shape_compatible_refl s : shape_compatible s s = true.
Proof.
  destruct s as [[n sz] d]. unfold shape_compatible, broadcast_compatible.
  now rewrite !Nat.eqb_refl.
Qed.
End ScalerFacts.
(** ** IEEE 754 facts used below *)

Section Binary64Facts.
Local Open Scope num_scope.
Implicit Types x y c : B64.t.

Lemma b64_isnan x : isnan x = true -> x = S754_nan.
Proof. destruct x; simpl; congruence. Qed.

Lemma b64_leb_nan_l x : (S754_nan <=? x) = false.
Proof. reflexivity. Qed.

Lemma b64_leb_nan_r x : (x <=? S754_nan) = false.
Proof. destruct x; reflexivity. Qed.

(** [c - c] is a zero, or NaN when [c] is infinite. *)
Lemma b64_sub_same c : B64.is_zero (c - c) || B64.is_nan (c - c) = true.
Proof.
  destruct c as [s | s | | s m e]; simpl.
  - now destruct s.
  - now destruct s.
  - reflexivity.
  - unfold SFsub. rewrite Z.sub_diag. reflexivity.
Qed.

(** Division by a zero, and by NaN: the quotient is infinite or NaN. *)
Lemma b64_div_zero x y :
  B64.is_zero y || B64.is_nan y = true ->
  B64.is_inf (x / y) || B64.is_nan (x / y) = true.
Proof. destruct y; try discriminate; destruct x; reflexivity. Qed.

(** Adding anything to an infinite value or to NaN leaves it infinite or
    NaN. *)
Lemma b64_add_inf_nan x y :
  B64.is_inf x || B64.is_nan x = true ->
  B64.is_inf (x + y) || B64.is_nan (x + y) = true.
Proof.
  destruct x as [| s | |]; try discriminate; destruct y as [| s' | |];
    try reflexivity; destruct s, s'; reflexivity.
Qed.

(** NaN in, NaN out: the four operations, and so both affine maps. *)
Lemma b64_nan_l (y : B64.t) :
  S754_nan + y = S754_nan /\ S754_nan - y = S754_nan /\
  S754_nan * y = S754_nan /\ S754_nan / y = S754_nan.
Proof. repeat split; reflexivity. Qed.

Lemma b64_affine_nan lo hi mn mx : affine_code lo hi mn mx S754_nan = S754_nan.
Proof. reflexivity. Qed.

(** The unguarded division of the range scaler at a zero span. *)
Lemma b64_affine_zero_span lo hi mn mx x :
  B64.is_zero (mx - mn) || B64.is_nan (mx - mn) = true ->
  B64.is_inf (affine_code lo hi mn mx x)
  || B64.is_nan (affine_code lo hi mn mx x) = true.
Proof.
  intros Z. unfold affine_code.
  apply b64_add_inf_nan, b64_div_zero, Z.
Qed.
End Binary64Facts.

(** ** The least and the greatest known value of a column

    [nanmin] and [nanmax] fold [fmin] and [fmax]; over an element type
    whose [<=] is a total preorder on the values that are not NaN, and false
    on NaN, they give the least and the greatest known value. *)

Section KnownExtrema.
Context {F : Type} `{Number F}.
Local Open Scope num_scope.

Hypothesis nan_unique : forall x : F, isnan x = true -> x = nan.
Hypothesis isnan_nan : isnan (nan : F) = true.
Hypothesis leb_nan_l : forall y : F, (nan <=? y) = false.
Hypothesis leb_nan_r : forall y : F, (y <=? nan) = false.
Hypothesis leb_refl : forall x : F, isnan x = false -> (x <=? x) = true.
Hypothesis leb_trans : forall x y z : F,
    (x <=? y) = true -> (y <=? z) = true -> (x <=? z) = true.
Hypothesis leb_total : forall x y : F,
    isnan x = false -> isnan y = false -> (x <=? y) = false -> (y <=? x) = true.

Lemma fold_fmin_known l : forall a : F,
  isnan a = false ->
  exists m, fold_left fmin l a = m /\ isnan m = false /\
            (m = a \/ In m (valid l)) /\
            (m <=? a) = true /\
            Forall (fun x => (m <=? x) = true) (valid l).
Proof.
  induction l as [|x l IH]; intros a Ha; cbn [fold_left].
  - exists a. repeat split; auto.
  - unfold valid. cbn [filter]. fold (valid l).
    destruct (isnan x) eqn:Hx; cbn [negb].
    + assert (E : fmin a x = a) by (unfold fmin; now rewrite Hx, orb_true_r).
      rewrite E. apply IH, Ha.
    + unfold fmin. rewrite Hx, orb_false_r.
      destruct (a <=? x) eqn:L.
      * destruct (IH a Ha) as (m & E & Nm & I & La & A).
        exists m. split; [exact E|]. split; [exact Nm|].
        split; [| split].
        -- destruct I as [I | I]; [now left | right; now right].
        -- exact La.
        -- constructor; [eapply leb_trans; eauto | assumption].
      * destruct (IH x Hx) as (m & E & Nm & I & Lx & A).
        exists m. split; [exact E|]. split; [exact Nm|].
        split; [| split].
        -- destruct I as [I | I]; [right; left; now symmetry | right; now right].
        -- apply (leb_trans m x a); [exact Lx | apply leb_total; assumption].
        -- constructor; assumption.
Qed.

Lemma fold_fmax_known l : forall a : F,
  isnan a = false ->
  exists m, fold_left fmax l a = m /\ isnan m = false /\
            (m = a \/ In m (valid l)) /\
            (a <=? m) = true /\
            Forall (fun x => (x <=? m) = true) (valid l).
Proof.
  induction l as [|x l IH]; intros a Ha; cbn [fold_left].
  - exists a. repeat split; auto.
  - unfold valid. cbn [filter]. fold (valid l).
    destruct (isnan x) eqn:Hx; cbn [negb].
    + assert (E : fmax a x = a) by (unfold fmax; now rewrite Hx, orb_true_r).
      rewrite E. apply IH, Ha.
    + unfold fmax. rewrite Hx, orb_false_r.
      destruct (x <=? a) eqn:L.
      * destruct (IH a Ha) as (m & E & Nm & I & La & A).
        exists m. split; [exact E|]. split; [exact Nm|].
        split; [| split].
        -- destruct I as [I | I]; [now left | right; now right].
        -- exact La.
        -- constructor; [eapply leb_trans; eauto | assumption].
      * destruct (IH x Hx) as (m & E & Nm & I & Lx & A).
        exists m. split; [exact E|]. split; [exact Nm|].
        split; [| split].
        -- destruct I as [I | I]; [right; left; now symmetry | right; now right].
        -- apply (leb_trans a x m); [apply leb_total; assumption | exact Lx].
        -- constructor; assumption.
Qed.

(** From NaN the fold takes the first known value, if any. *)
Lemma fold_from_nan (op : F -> F -> F) l :
  (forall x, op nan x = x) ->
  match valid l with
  | [] => fold_left op l nan = nan
  | a :: l' => exists l'', fold_left op l nan = fold_left op l'' a
                           /\ valid l'' = l'
  end.
Proof.
  intros Hop. induction l as [|x l IH]; [reflexivity|].
  unfold valid in *. cbn [filter fold_left]. rewrite Hop.
  destruct (isnan x) eqn:Hx; cbn [negb].
  - apply nan_unique in Hx. subst x. exact IH.
  - exists l. split; reflexivity.
Qed.

Lemma fmin_nan_l (x : F) : fmin nan x = x.
Proof.
  unfold fmin. rewrite leb_nan_l. cbn [orb].
  destruct (isnan x) eqn:Hx; [| reflexivity].
  symmetry. now apply nan_unique.
Qed.

Lemma fmax_nan_l (x : F) : fmax nan x = x.
Proof.
  unfold fmax. rewrite leb_nan_r. cbn [orb].
  destruct (isnan x) eqn:Hx; [| reflexivity].
  symmetry. now apply nan_unique.
Qed.

Lemma valid_known (l : list F) x : In x (valid l) -> isnan x = false.
Proof.
  unfold valid. rewrite filter_In. intros [_ E]. now apply negb_true_iff in E.
Qed.

Lemma nanmin_spec col : is_min_valid col (nanmin col).
Proof.
  unfold is_min_valid, nanmin, reduce.
  destruct col as [|x l]; [reflexivity|].
  destruct (isnan x) eqn:Hx.
  - apply nan_unique in Hx. subst x.
    unfold valid. cbn [filter]. rewrite isnan_nan. cbn [negb]. fold (valid l).
    pose proof (fold_from_nan fmin l fmin_nan_l) as S.
    destruct (valid l) as [|a l'] eqn:V; [exact S|].
    destruct S as (l'' & -> & V').
    assert (Ha : isnan a = false) by (apply (valid_known l); rewrite V; now left).
    destruct (fold_fmin_known l'' a Ha) as (m & -> & Nm & I & La & A).
    rewrite V' in *. split.
    + destruct I as [-> | I]; [now left | now right].
    + now constructor.
  - unfold valid. cbn [filter]. rewrite Hx. cbn [negb]. fold (valid l).
    destruct (fold_fmin_known l x Hx) as (m & -> & Nm & I & La & A). split.
    + destruct I as [-> | I]; [now left | now right].
    + now constructor.
Qed.

(** The least and the greatest known value of a constant column are its
    one value. *)
Lemma constant_column_valid col c :
  constant_column col c ->
  In c (valid col) /\ forall m, In m (valid col) -> m = c.
Proof.
  intros (Hc & Hin & Hall). split.
  - unfold valid. apply filter_In. split; [assumption | now rewrite Hc].
  - intros m Hm. pose proof (valid_known _ _ Hm) as Nm.
    unfold valid in Hm. apply filter_In in Hm. destruct Hm as [Hm _].
    rewrite Forall_forall in Hall. destruct (Hall m Hm); congruence.
Qed.

Lemma constant_column_min col c m :
  constant_column col c -> is_min_valid col m -> m = c.
Proof.
  intros K S. destruct (constant_column_valid K) as [I A].
  unfold is_min_valid in S. destruct (valid col); [destruct I|].
  apply A, S.
Qed.

Lemma constant_column_max col c m :
  constant_column col c -> is_max_valid col m -> m = c.
Proof.
  intros K S. destruct (constant_column_valid K) as [I A].
  unfold is_max_valid in S. destruct (valid col); [destruct I|].
  apply A, S.
Qed.

Lemma nanmax_spec col : is_max_valid col (nanmax col).
Proof.
  unfold is_max_valid, nanmax, reduce.
  destruct col as [|x l]; [reflexivity|].
  destruct (isnan x) eqn:Hx.
  - apply nan_unique in Hx. subst x.
    unfold valid. cbn [filter]. rewrite isnan_nan. cbn [negb]. fold (valid l).
    pose proof (fold_from_nan fmax l fmax_nan_l) as S.
    destruct (valid l) as [|a l'] eqn:V; [exact S|].
    destruct S as (l'' & -> & V').
    assert (Ha : isnan a = false) by (apply (valid_known l); rewrite V; now left).
    destruct (fold_fmax_known l'' a Ha) as (m & -> & Nm & I & La & A).
    rewrite V' in *. split.
    + destruct I as [-> | I]; [now left | now right].
    + now constructor.
  - unfold valid. cbn [filter]. rewrite Hx. cbn [negb]. fold (valid l).
    destruct (fold_fmax_known l x Hx) as (m & -> & Nm & I & La & A). split.
    + destruct I as [-> | I]; [now left | now right].
    + now constructor.
Qed.
End KnownExtrema.

(** ** Comparison in binary64 *)

Section Binary64Order.
Local Open Scope num_scope.

Lemma SFcompare_antisym (x y : B64.t) :
  SFcompare y x = option_map CompOpp (SFcompare x y).
Proof.
  destruct x as [s | s | | s m e], y as [s' | s' | | s' m' e'];
    try (destruct s); try (destruct s'); try reflexivity; simpl;
    assert (A : Pos.compare_cont Eq m' m = CompOpp (Pos.compare_cont Eq m m'))
      by (symmetry; apply (Pos.compare_cont_antisym m m' Eq));
    rewrite (Z.compare_antisym e e'), A;
    destruct (Z.compare e e'); simpl; try reflexivity;
    now destruct (Pos.compare_cont Eq m m').
Qed.

(** [lo < hi] excludes [lo >= hi]. *)
Lemma b64_ltb_not_geb (lo hi : B64.t) : (lo <? hi) = true -> (lo >=? hi) = false.
Proof.
  simpl. unfold SFltb, SFleb. rewrite (SFcompare_antisym lo hi).
  destruct (SFcompare lo hi) as [[]|]; simpl; congruence.
Qed.

Lemma SFcompare_refl (x : B64.t) : isnan x = false -> SFcompare x x = Some Eq.
Proof.
  destruct x as [s | s | | s m e]; try (destruct s);
    try reflexivity; try discriminate;
    intros _; simpl; rewrite Z.compare_refl, Pos.compare_cont_refl; reflexivity.
Qed.

Lemma SFcompare_known (x y : B64.t) :
  isnan x = false -> isnan y = false -> SFcompare x y <> None.
Proof.
  destruct x as [s | s | | s m e], y as [s' | s' | | s' m' e'];
    try discriminate; intros _ _; simpl; try discriminate;
    try (destruct s); try (destruct s'); discriminate.
Qed.

Lemma b64_leb_refl (x : B64.t) : isnan x = false -> (x <=? x) = true.
Proof. intros N. simpl. unfold SFleb. now rewrite SFcompare_refl. Qed.

Lemma b64_leb_total (x y : B64.t) :
  isnan x = false -> isnan y = false -> (x <=? y) = false -> (y <=? x) = true.
Proof.
  intros Nx Ny. simpl. unfold SFleb. rewrite (SFcompare_antisym x y).
  pose proof (SFcompare_known x y Nx Ny).
  destruct (SFcompare x y) as [[]|]; simpl; congruence.
Qed.

Ltac order_cases :=
  repeat match goal with
         | |- context [Z.compare ?a ?b] => destruct (Z.compare_spec a b)
         | H : context [Z.compare ?a ?b] |- _ => destruct (Z.compare_spec a b)
         | |- context [Pos.compare_cont Eq ?a ?b] =>
             change (Pos.compare_cont Eq a b) with (Pos.compare a b);
             destruct (Pos.compare_spec a b)
         | H : context [Pos.compare_cont Eq ?a ?b] |- _ =>
             change (Pos.compare_cont Eq a b) with (Pos.compare a b) in H;
             destruct (Pos.compare_spec a b)
         end.

Lemma b64_leb_trans (x y z : B64.t) :
  (x <=? y) = true -> (y <=? z) = true -> (x <=? z) = true.
Proof.
  simpl. unfold SFleb.
  destruct x as [s | s | | s m e], y as [s' | s' | | s' m' e'],
           z as [s'' | s'' | | s'' m'' e''];
    try (destruct s); try (destruct s'); try (destruct s'');
    simpl; try reflexivity; try discriminate;
    intros A B; order_cases; subst; simpl in *;
      try reflexivity; try discriminate; try lia.
Qed.

(** In binary64 [nanmin] and [nanmax] are the least and the greatest known
    value of a column. *)
Lemma b64_nanmin_spec (col : list B64.t) : is_min_valid col (nanmin col).
Proof.
  apply nanmin_spec;
    [exact b64_isnan | reflexivity | exact b64_leb_nan_l | exact b64_leb_refl
     | exact b64_leb_trans | exact b64_leb_total].
Qed.

Lemma b64_nanmax_spec (col : list B64.t) : is_max_valid col (nanmax col).
Proof.
  apply nanmax_spec;
    [exact b64_isnan | reflexivity | exact b64_leb_nan_r | exact b64_leb_refl
     | exact b64_leb_trans | exact b64_leb_total].
Qed.
End Binary64Order.

(** A column constant in binary64: its least and greatest known values. *)
Lemma b64_nanmin_const (c : B64.t) col : constant_column col c -> nanmin col = c.
Proof.
  intros K. exact (constant_column_min _ K (b64_nanmin_spec col)).
Qed.

Lemma b64_nanmax_const (c : B64.t) col : constant_column col c -> nanmax col = c.
Proof.
  intros K. exact (constant_column_max _ K (b64_nanmax_spec col)).
Qed.
(** ** Zeros and equal numbers in binary64 *)

Section Binary64Zeros.
Local Open Scope num_scope.

Lemma b64_sub_same_finite (x : B64.t) :
  B64.is_nan x || B64.is_inf x = false -> B64.is_zero (x - x) = true.
Proof.
  intros Fx.
  destruct x as [s | s | | s m e]; try discriminate Fx.
  - now destruct s.
  - cbn [sub binary64]. unfold SFsub. rewrite Z.sub_diag. reflexivity.
Qed.

Lemma b64_mul_zero_l (z s : B64.t) :
  B64.is_zero z = true -> B64.is_nan s || B64.is_inf s = false ->
  B64.is_zero (z * s) = true.
Proof. destruct z; try discriminate; destruct s; try discriminate; reflexivity. Qed.

Lemma b64_div_zero_l (z d : B64.t) :
  B64.is_zero z = true ->
  B64.is_nan d || B64.is_inf d || B64.is_zero d = false ->
  B64.is_zero (z / d) = true.
Proof. destruct z; try discriminate; destruct d; try discriminate; reflexivity. Qed.

Lemma b64_add_zero_l (z lo : B64.t) :
  B64.is_zero z = true -> B64.is_nan lo || B64.is_inf lo = false ->
  (z + lo ==? lo) = true.
Proof.
  destruct z as [sz | | |]; try discriminate.
  destruct lo as [s | s | | s m e]; try discriminate; intros _ _.
  - now destruct sz, s.
  - cbn [add binary64 SFadd eqb]. unfold SFeqb.
    now rewrite SFcompare_refl.
Qed.

Lemma SFcompare_eq (x y : B64.t) :
  SFcompare x y = Some Eq -> B64.alike x y.
Proof.
  destruct x as [s | s | | s m e], y as [s' | s' | | s' m' e']; simpl;
    try discriminate; try (destruct s; discriminate);
    try (destruct s'; discriminate).
  - intros _. right. now split.
  - destruct s, s'; try discriminate; intros _; now left.
  - intros E. left.
    assert (E' : s = s' /\ (e ?= e')%Z = Eq /\ Pos.compare_cont Eq m m' = Eq).
    { destruct s, s'; try discriminate E;
        destruct (e ?= e')%Z; try discriminate E; repeat split;
        destruct (Pos.compare_cont Eq m m'); try discriminate E; reflexivity. }
    destruct E' as (-> & Ee & Em).
    apply Z.compare_eq in Ee. apply Pos.compare_eq in Em. now subst.
Qed.

Lemma b64_same_alike (x y : B64.t) :
  same_number x y = true <-> B64.alike x y.
Proof.
  unfold same_number. split.
  - intros S. apply orb_true_iff in S. destruct S as [S | S].
    + cbn [eqb binary64] in S. unfold SFeqb in S.
      destruct (SFcompare x y) as [[| |]|] eqn:C; try discriminate S.
      now apply SFcompare_eq.
    + apply andb_true_iff in S. destruct S as [Nx Ny].
      apply b64_isnan in Nx, Ny. subst. now left.
  - intros [-> | [Zx Zy]].
    + destruct (isnan y) eqn:N; [now rewrite orb_true_r|].
      cbn [eqb binary64]. unfold SFeqb. now rewrite SFcompare_refl.
    + destruct x; try discriminate Zx; destruct y; try discriminate Zy.
      reflexivity.
Qed.

Lemma alike_refl (x : B64.t) : B64.alike x x.
Proof. now left. Qed.

Lemma alike_sym (x y : B64.t) : B64.alike x y -> B64.alike y x.
Proof. intros [-> | [A B]]; [now left | right; now split]. Qed.

Lemma alike_trans (x y z : B64.t) :
  B64.alike x y -> B64.alike y z -> B64.alike x z.
Proof.
  intros [-> | [A B]] [<- | [C D]]; try (now left); right; split;
    congruence.
Qed.

(** Adding a zero changes nothing but, possibly, the sign of a zero. *)
Lemma alike_add_zero_l (z x : B64.t) :
  B64.is_zero z = true -> B64.alike (z + x) x.
Proof.
  destruct z as [sz | | |]; try discriminate. intros _.
  destruct x as [s | s | | s m e]; try (now left).
  right. split; [| reflexivity]. now destruct sz, s.
Qed.

Lemma alike_add_zero_r (x z : B64.t) :
  B64.is_zero z = true -> B64.alike (x + z) x.
Proof.
  destruct z as [sz | | |]; try discriminate. intros _.
  destruct x as [s | s | | s m e]; try (now left).
  right. split; [| reflexivity]. now destruct sz, s.
Qed.

(** Addition does not tell two zeros apart, but in the sign of a zero. *)
Lemma alike_add (x x' y y' : B64.t) :
  B64.alike x x' -> B64.alike y y' -> B64.alike (x + y) (x' + y').
Proof.
  intros [-> | [Zx Zx']] [-> | [Zy Zy']].
  - now left.
  - eapply alike_trans; [now apply alike_add_zero_r|].
    apply alike_sym. now apply alike_add_zero_r.
  - eapply alike_trans; [now apply alike_add_zero_l|].
    apply alike_sym. now apply alike_add_zero_l.
  - destruct x; try discriminate; destruct x'; try discriminate;
      destruct y; try discriminate; destruct y'; try discriminate.
    right. split; match goal with
                  | |- B64.is_zero (S754_zero ?a + S754_zero ?b) = true =>
                      now destruct a, b
                  end.
Qed.

(** Two numbers that compare equal have a zero difference. *)
Lemma b64_eqb_sub_zero (x y : B64.t) :
  B64.is_finite x = true -> (x ==? y) = true -> B64.is_zero (x - y) = true.
Proof.
  intros Fx E. cbn [eqb binary64] in E. unfold SFeqb in E.
  destruct (SFcompare x y) as [[| |]|] eqn:C; try discriminate E.
  apply SFcompare_eq in C. destruct C as [<- | [Zx Zy]].
  - apply b64_sub_same_finite.
    destruct x; try discriminate Fx; reflexivity.
  - destruct x as [s| | |]; try discriminate; destruct y as [s'| | |];
      try discriminate. now destruct s, s'.
Qed.


Lemma b64_finite (x : B64.t) :
  B64.is_finite x = true -> B64.is_nan x || B64.is_inf x = false.
Proof. now destruct x. Qed.
End Binary64Zeros.
(** ** The canonical layout *)

Section Canonical.
Context {F : Type} `{Number F}.
Hypothesis isnan_nan : isnan nan = true.

Lemma ts_size_le (s : series F) : ts_size s <= length s.
Proof.
  induction s as [|st s IH]; simpl; [lia|].
  destruct (ts_size s); [destruct (is_padding st)|]; simpl; lia.
Qed.

Lemma ts_size_zero (s : series F) :
  ts_size s = 0 -> Forall (fun st => is_padding st = true) s.
Proof.
  induction s as [|st s IH]; simpl; [constructor|].
  destruct (ts_size s) eqn:E; [| discriminate].
  destruct (is_padding st) eqn:P; [| discriminate].
  intros _. constructor; auto.
Qed.

(** The steps after the valid length are steps of padding. *)
Lemma ts_size_tail (s : series F) :
  Forall (fun st => is_padding st = true) (skipn (ts_size s) s).
Proof.
  induction s as [|st s IH]; simpl; [constructor|].
  destruct (ts_size s) eqn:E.
  - destruct (is_padding st) eqn:P; simpl.
    + constructor; [assumption | now apply ts_size_zero].
    + now apply ts_size_zero.
  - simpl. exact IH.
Qed.

Lemma ts_size_app_padding (s p : series F) :
  Forall (fun st => is_padding st = true) p -> ts_size (s ++ p) = ts_size s.
Proof.
  intros P. induction s as [|st s IH]; simpl.
  - induction P as [|st p Hst _ IHp]; simpl; [reflexivity|].
    now rewrite IHp, Hst.
  - now rewrite IH.
Qed.

Lemma ts_size_firstn (s : series F) : ts_size (firstn (ts_size s) s) = ts_size s.
Proof.
  rewrite <- (firstn_skipn (ts_size s) s) at 3.
  symmetry. apply ts_size_app_padding, ts_size_tail.
Qed.

Lemma is_padding_repeat d : is_padding (repeat nan d) = true.
Proof.
  unfold is_padding. apply forallb_forall. intros x Hx.
  apply repeat_spec in Hx. now subst x.
Qed.

Lemma padding_repeat d k :
  Forall (fun st => is_padding st = true) (repeat (repeat nan d) k).
Proof.
  apply Forall_forall. intros st Hst. apply repeat_spec in Hst. subst st.
  apply is_padding_repeat.
Qed.

(** A missing value in feature [di] of every step of padding. *)
Lemma padding_column di (p : series F) :
  Forall (fun st => is_padding st = true) p ->
  Forall (fun x => isnan x = true) (column di p).
Proof.
  intros P. unfold column. apply Forall_map.
  eapply Forall_impl; [| exact P]. intros st Hst. simpl.
  destruct (Nat.lt_ge_cases di (length st)) as [L | G].
  - unfold is_padding in Hst. rewrite forallb_forall in Hst.
    apply Hst, nth_In, L.
  - now rewrite nth_overflow.
Qed.

Lemma valid_app (l l' : list F) : valid (l ++ l') = valid l ++ valid l'.
Proof. apply filter_app. Qed.

Lemma valid_all_nan (l : list F) :
  Forall (fun x => isnan x = true) l -> valid l = [].
Proof.
  induction 1 as [|x l Hx _ IH]; simpl; [reflexivity|].
  now rewrite Hx.
Qed.

Lemma column_app di (s s' : series F) :
  column di (s ++ s') = column di s ++ column di s'.
Proof. apply map_app. Qed.

(** Trimming to the valid length loses no known value. *)
Lemma valid_column_firstn di (s : series F) :
  valid (column di (firstn (ts_size s) s)) = valid (column di s).
Proof.
  rewrite <- (firstn_skipn (ts_size s) s) at 3.
  rewrite column_app, valid_app.
  rewrite (valid_all_nan (padding_column di (ts_size_tail s))).
  now rewrite app_nil_r.
Qed.

Lemma to_time_series_dataset_nth (X : dataset F) i :
  i < length X ->
  nth i (to_time_series_dataset X) [] = canonical_series X (nth i X []).
Proof.
  intros Hi. unfold to_time_series_dataset.
  now rewrite (nth_map_in _ X [] []).
Qed.

Lemma to_time_series_dataset_map (X : dataset F) :
  to_time_series_dataset X = map (canonical_series X) X.
Proof. reflexivity. Qed.

Lemma to_time_series_dataset_length (X : dataset F) :
  length (to_time_series_dataset X) = length X.
Proof. apply length_map. Qed.

Lemma canonical_ts_size (X : dataset F) ts :
  ts_size (canonical_series X ts) = ts_size ts.
Proof.
  unfold canonical_series.
  rewrite ts_size_app_padding by apply padding_repeat.
  apply ts_size_firstn.
Qed.

Lemma canonical_valid_column (X : dataset F) ts di :
  valid (column di (canonical_series X ts)) = valid (column di ts).
Proof.
  unfold canonical_series.
  rewrite column_app, valid_app, valid_column_firstn.
  rewrite (valid_all_nan (padding_column di (padding_repeat _ _))).
  apply app_nil_r.
Qed.


Lemma max_ts_size_ge (X : dataset F) ts :
  In ts X -> ts_size ts <= fold_right Nat.max 0 (map ts_size X).
Proof.
  induction X as [|s X IH]; simpl; [easy|].
  intros [-> | I]; [lia | specialize (IH I); lia].
Qed.

Lemma canonical_length (X : dataset F) ts :
  In ts X ->
  length (canonical_series X ts) = fold_right Nat.max 0 (map ts_size X).
Proof.
  intros I. unfold canonical_series.
  rewrite length_app, repeat_length, length_firstn.
  pose proof (ts_size_le ts). pose proof (max_ts_size_ge X ts I). lia.
Qed.

(** Every series of the normalized dataset has the length of its time
    axis. *)
Lemma canonical_time_steps (X : dataset F) i :
  i < length X ->
  length (nth i (to_time_series_dataset X) []) =
  time_steps (to_time_series_dataset X).
Proof.
  intros Hi. unfold time_steps.
  rewrite to_time_series_dataset_nth by assumption.
  rewrite canonical_length by (now apply nth_In).
  destruct X as [|s0 r] eqn:EX; [simpl in Hi; lia|]. rewrite <- EX.
  assert (I0 : In s0 X) by (rewrite EX; now left).
  rewrite <- (canonical_length X s0 I0).
  unfold to_time_series_dataset. rewrite EX at 3. reflexivity.
Qed.

Lemma position_time_steps (X : dataset F) i t di :
  position (to_time_series_dataset X) i t di ->
  0 < time_steps (to_time_series_dataset X).
Proof.
  intros (Hi & Ht & _). rewrite to_time_series_dataset_length in Hi.
  rewrite canonical_time_steps in Ht by assumption. lia.
Qed.

Lemma column_time_steps (X : dataset F) i di c :
  In c (column di (nth i (to_time_series_dataset X) [])) ->
  0 < time_steps (to_time_series_dataset X).
Proof.
  intros I. destruct (Nat.lt_ge_cases i (length X)) as [Hi | Hi].
  - rewrite <- (canonical_time_steps X Hi).
    destruct (nth i (to_time_series_dataset X) []); [destruct I | simpl; lia].
  - rewrite nth_overflow in I
      by (now rewrite to_time_series_dataset_length).
    destruct I.
Qed.
End Canonical.
(** ** TimeSeriesScalerMinMax: a zero span is divided by, unguarded *)

(** C1.  Binary64.  When a series is constant in feature [di] (all its known
    values there are the one value [c]; a single valid sample is the case of
    one known value), [transform] returns a dataset that holds every position
    of that series and feature, and holds there the value of the unguarded
    formula [(x - c) * (hi - lo) / (c - c) + lo], which is infinite or NaN:
    the division by the zero span is carried out as IEEE 754 defines it. *)
Theorem minmax_zero_span_not_guarded
        (self : TimeSeriesScalerMinMax.t B64.t) (X : dataset B64.t)
        w lo hi fd i di c :
  TimeSeriesScalerMinMax.effective_range self = (w, (lo, hi)) ->
  leb hi lo = false ->
  TimeSeriesScalerMinMax._X_fit_dims self = Some fd ->
  shape_compatible fd (shape_of X) = true ->
  constant_column (column di (nth i (to_time_series_dataset X) [])) c ->
  exists Y,
    TimeSeriesScalerMinMax.transform self X = (w, inr Y) /\
    forall t, in_range (to_time_series_dataset X) i t di ->
      position Y i t di
      /\ at3 Y i t di = affine_code lo hi c c (at3 (to_time_series_dataset X) i t di)
      /\ B64.is_inf (at3 Y i t di) || B64.is_nan (at3 Y i t di) = true.
Proof.
  intros E V Fd C K.
  assert (L : 0 < time_steps (to_time_series_dataset X)).
  { destruct K as (_ & I & _). exact (column_time_steps X i di c I). }
  eexists. split; [now apply (minmax_transform_ok self X E V Fd C)|].
  intros t R. split; [now apply rescale_position|].
  rewrite rescale_at by assumption.
  rewrite (b64_nanmin_const K), (b64_nanmax_const K).
  split; [reflexivity|].
  apply b64_affine_zero_span, b64_sub_same.
Qed.

Lemma minmax_zero_span_not_guarded_witness :
  let X := [[ [B64.of_Z 7]; [S754_nan]; [B64.of_Z 7] ]] in
  let self := TimeSeriesScalerMinMax.fit
                (TimeSeriesScalerMinMax.__init__ (B64.of_Z 1, B64.of_Z 2) None None) X in
  exists Y,
    TimeSeriesScalerMinMax.transform self X = ([], inr Y) /\
    forall t, in_range (to_time_series_dataset X) 0 t 0 ->
      position Y 0 t 0
      /\ at3 Y 0 t 0 = affine_code (B64.of_Z 1) (B64.of_Z 2) (B64.of_Z 7) (B64.of_Z 7)
                                   (at3 (to_time_series_dataset X) 0 t 0)
      /\ B64.is_inf (at3 Y 0 t 0) || B64.is_nan (at3 Y 0 t 0) = true.
Proof.
  intros X self.
  apply (@minmax_zero_span_not_guarded self X [] (B64.of_Z 1) (B64.of_Z 2) (1, 3, 1) 0 0 (B64.of_Z 7)).
  - reflexivity.
  - reflexivity.
  - reflexivity.
  - reflexivity.
  - split; [reflexivity | split].
    + left; reflexivity.
    + repeat constructor; (right; reflexivity) || (left; reflexivity).
Defined.

(** ** TimeSeriesScalerMinMax: the interval is validated first *)

(** C4.  Binary64.  With [(lo, hi)] the interval in force after the
    deprecated [min] and [max] have been applied: when [lo >= hi], [transform]
    raises the InvalidConfiguration error carrying that very pair, whatever
    the dataset and whether or not [fit] has run (nothing is computed on the
    data); when [lo < hi], [transform] never raises InvalidConfiguration. *)
Theorem minmax_interval_validated
        (self : TimeSeriesScalerMinMax.t B64.t) w lo hi :
  TimeSeriesScalerMinMax.effective_range self = (w, (lo, hi)) ->
  (leb hi lo = true ->
   forall X, TimeSeriesScalerMinMax.transform self X
             = (w, inl (InvalidConfiguration (lo, hi))))
  /\
  (ltb lo hi = true ->
   forall X vr, snd (TimeSeriesScalerMinMax.transform self X)
                <> inl (InvalidConfiguration vr)).
Proof.
  intros E. split.
  - intros V X. unfold TimeSeriesScalerMinMax.transform.
    rewrite E. cbn [fst snd]. now rewrite V.
  - intros V X vr. apply b64_ltb_not_geb in V.
    unfold TimeSeriesScalerMinMax.transform. rewrite E. cbn [fst snd].
    rewrite V.
    destruct (TimeSeriesScalerMinMax._X_fit_dims self) as [fd|]; simpl;
      [| discriminate].
    unfold check_dims, check_array.
    destruct (shape_compatible fd (shape_of X)); simpl; [| discriminate].
    unfold reduce_axis1.
    destruct (shape_of (to_time_series_dataset X)) as [[n_ts sz] d].
    destruct (sz =? 0); simpl; discriminate.
Qed.

Lemma minmax_interval_validated_witness :
  (forall X,
      TimeSeriesScalerMinMax.transform
        (TimeSeriesScalerMinMax.__init__ (B64.of_Z 0, B64.of_Z 1) (Some (B64.of_Z 5)) None) X
      = ([DeprecationWarning "min"],
         inl (InvalidConfiguration (B64.of_Z 5, B64.of_Z 1))))
  /\
  (forall X vr,
      snd (TimeSeriesScalerMinMax.transform
             (TimeSeriesScalerMinMax.__init__ (B64.of_Z 1, B64.of_Z 2) None None) X)
      <> inl (InvalidConfiguration vr)).
Proof.
  split.
  - apply (proj1 (@minmax_interval_validated
                    (TimeSeriesScalerMinMax.__init__ (B64.of_Z 0, B64.of_Z 1) (Some (B64.of_Z 5)) None)
                    [DeprecationWarning "min"] (B64.of_Z 5) (B64.of_Z 1) eq_refl)).
    reflexivity.
  - apply (proj2 (@minmax_interval_validated
                    (TimeSeriesScalerMinMax.__init__ (B64.of_Z 1, B64.of_Z 2) None None)
                    [] (B64.of_Z 1) (B64.of_Z 2) eq_refl)).
    reflexivity.
Defined.

(** ** TimeSeriesScalerMinMax: the deprecated [min] and [max] *)

Section Deprecated.
Context {F : Type} `{Number F}.
Local Open Scope num_scope.

(** C8.  Each of the deprecated parameters that is supplied replaces its end
    of [value_range] and emits one DeprecationWarning, and the call goes on:
    the warnings are returned whatever the outcome.  The interval [(lo, hi)]
    with the ends so replaced is the one that is validated (when
    [lo >= hi] the call raises InvalidConfiguration with that pair) and the
    one the data are scaled with (otherwise, on a fitted scaler, a compatible
    shape and a time axis that is not empty, the dataset returned holds every
    position of the normalized input, with there the value of the affine map
    for [lo] and [hi]).  The call is the call of a scaler configured with
    [(lo, hi)] and no deprecated parameter, warnings apart. *)
Theorem minmax_legacy_override (vr : F * F) (mn mx : option F) fd (X : dataset F) :
  let self := {| TimeSeriesScalerMinMax.value_range := vr;
                 TimeSeriesScalerMinMax.min := mn;
                 TimeSeriesScalerMinMax.max := mx;
                 TimeSeriesScalerMinMax._X_fit_dims := fd |} in
  let lo := match mn with Some m => m | None => fst vr end in
  let hi := match mx with Some m => m | None => snd vr end in
  let w := (match mn with Some _ => [DeprecationWarning "min"] | None => [] end)
             ++ (match mx with Some _ => [DeprecationWarning "max"] | None => [] end) in
  let plain := {| TimeSeriesScalerMinMax.value_range := (lo, hi);
                  TimeSeriesScalerMinMax.min := None;
                  TimeSeriesScalerMinMax.max := None;
                  TimeSeriesScalerMinMax._X_fit_dims := fd |} in
  fst (TimeSeriesScalerMinMax.transform self X) = w
  /\ ((lo >=? hi) = true ->
      TimeSeriesScalerMinMax.transform self X
      = (w, inl (InvalidConfiguration (lo, hi))))
  /\ ((lo >=? hi) = false ->
      forall s, fd = Some s ->
      shape_compatible s (shape_of X) = true ->
      0 < time_steps (to_time_series_dataset X) ->
      exists Y,
        TimeSeriesScalerMinMax.transform self X = (w, inr Y) /\
        forall i t di,
          in_range (to_time_series_dataset X) i t di ->
          position Y i t di /\
          at3 Y i t di =
          affine_code lo hi
            (nanmin (column di (nth i (to_time_series_dataset X) [])))
            (nanmax (column di (nth i (to_time_series_dataset X) [])))
            (at3 (to_time_series_dataset X) i t di))
  /\ TimeSeriesScalerMinMax.transform plain X
     = ([], snd (TimeSeriesScalerMinMax.transform self X)).
Proof.
  intros self lo hi w plain.
  assert (E : TimeSeriesScalerMinMax.effective_range self = (w, (lo, hi))).
  { subst self lo hi w. destruct vr as [a b], mn as [m|], mx as [m'|];
      reflexivity. }
  assert (E' : TimeSeriesScalerMinMax.effective_range plain = ([], (lo, hi)))
    by reflexivity.
  split; [| split; [| split]].
  - unfold TimeSeriesScalerMinMax.transform. now rewrite E.
  - intros V. unfold TimeSeriesScalerMinMax.transform.
    rewrite E. cbn [fst snd]. now rewrite V.
  - intros V s Fd C L. subst fd.
    eexists. split; [now apply (minmax_transform_ok self X E V eq_refl C)|].
    intros i t di R. split; [now apply rescale_position|].
    now apply rescale_at.
  - unfold TimeSeriesScalerMinMax.transform. rewrite E, E'. reflexivity.
Qed.
End Deprecated.

(** ** Fitting records a shape; transforming needs it *)

Section FitAndTransform.
Context {F : Type} `{Number F}.

Lemma minmax_fit_eq (self : TimeSeriesScalerMinMax.t F) X :
  TimeSeriesScalerMinMax.fit self X =
  {| TimeSeriesScalerMinMax.value_range := TimeSeriesScalerMinMax.value_range self;
     TimeSeriesScalerMinMax.min := TimeSeriesScalerMinMax.min self;
     TimeSeriesScalerMinMax.max := TimeSeriesScalerMinMax.max self;
     TimeSeriesScalerMinMax._X_fit_dims := Some (shape_of X) |}.
Proof. reflexivity. Qed.

Lemma minmax_fit_range (self : TimeSeriesScalerMinMax.t F) X :
  TimeSeriesScalerMinMax.effective_range (TimeSeriesScalerMinMax.fit self X)
  = TimeSeriesScalerMinMax.effective_range self.
Proof. reflexivity. Qed.

(** A dataset whose feature count differs from the recorded one is refused
    by the shape validator. *)
Lemma check_dims_mismatch (X : dataset F) fd :
  snd fd <> snd (shape_of X) ->
  check_dims X fd = inl (ShapeMismatch fd (shape_of X)).
Proof.
  intros D. unfold check_dims.
  destruct fd as [[n0 sz0] d0], (shape_of X) as [[n sz] d] eqn:E.
  simpl in D. unfold shape_compatible.
  apply Nat.eqb_neq in D. now rewrite D.
Qed.

(** C5, as amended.  For both scalers [fit] stores the shape
    [(n_ts, sz, d)] of the dataset and changes nothing else of the
    component.  A later [transform] of a dataset with another feature count
    raises the ShapeMismatch error of the shape validator, as it is: always
    for the moment scaler, and for the range scaler whenever its interval
    passes the validation, which comes first. *)
Theorem fit_records_shape_then_mismatch_raises
        (mm : TimeSeriesScalerMinMax.t F) (mv : TimeSeriesScalerMeanVariance.t F)
        (X0 X : dataset F) w lo hi :
  snd (shape_of X0) <> snd (shape_of X) ->
  TimeSeriesScalerMinMax.effective_range mm = (w, (lo, hi)) ->
  leb hi lo = false ->
  (TimeSeriesScalerMinMax.fit mm X0 =
   {| TimeSeriesScalerMinMax.value_range := TimeSeriesScalerMinMax.value_range mm;
      TimeSeriesScalerMinMax.min := TimeSeriesScalerMinMax.min mm;
      TimeSeriesScalerMinMax.max := TimeSeriesScalerMinMax.max mm;
      TimeSeriesScalerMinMax._X_fit_dims := Some (shape_of X0) |}
   /\
   TimeSeriesScalerMeanVariance.fit mv X0 =
   {| TimeSeriesScalerMeanVariance.mu := TimeSeriesScalerMeanVariance.mu mv;
      TimeSeriesScalerMeanVariance.std := TimeSeriesScalerMeanVariance.std mv;
      TimeSeriesScalerMeanVariance._X_fit_dims := Some (shape_of X0) |})
  /\
  check_dims X (shape_of X0) = inl (ShapeMismatch (shape_of X0) (shape_of X))
  /\
  TimeSeriesScalerMinMax.transform (TimeSeriesScalerMinMax.fit mm X0) X
  = (w, inl (ShapeMismatch (shape_of X0) (shape_of X)))
  /\
  TimeSeriesScalerMeanVariance.transform (TimeSeriesScalerMeanVariance.fit mv X0) X
  = inl (ShapeMismatch (shape_of X0) (shape_of X)).
Proof.
  intros D E V.
  pose proof (check_dims_mismatch X (shape_of X0) D) as M.
  repeat split; try assumption.
  - unfold TimeSeriesScalerMinMax.transform.
    rewrite minmax_fit_range, E. cbn [fst snd]. rewrite V.
    cbn [TimeSeriesScalerMinMax.fit TimeSeriesScalerMinMax._X_fit_dims getattr bind ret].
    unfold check_array. now rewrite M.
  - unfold TimeSeriesScalerMeanVariance.transform.
    cbn [TimeSeriesScalerMeanVariance.fit TimeSeriesScalerMeanVariance._X_fit_dims getattr bind ret].
    unfold check_array. now rewrite M.
Qed.

(** C10.  A scaler on which [fit] has not run has no [_X_fit_dims];
    [transform] reads it on every path that passes the validation of the
    interval, so the call raises whatever the dataset: AttributeError for the
    moment scaler, and for the range scaler AttributeError or, when the
    interval is refused first, InvalidConfiguration. *)
Theorem transform_before_fit_raises
        (vr : F * F) (mn mx : option F) (mu std : F) (X : dataset F) :
  let mm := TimeSeriesScalerMinMax.__init__ vr mn mx in
  let mv := TimeSeriesScalerMeanVariance.__init__ mu std in
  let range := snd (TimeSeriesScalerMinMax.effective_range mm) in
  snd (TimeSeriesScalerMinMax.transform mm X)
  = (if leb (snd range) (fst range)
     then inl (InvalidConfiguration range)
     else inl (AttributeError "_X_fit_dims"))
  /\ (exists e, snd (TimeSeriesScalerMinMax.transform mm X) = inl e)
  /\ TimeSeriesScalerMeanVariance.transform mv X
     = inl (AttributeError "_X_fit_dims").
Proof.
  intros mm mv range.
  assert (E : snd (TimeSeriesScalerMinMax.transform mm X)
              = (if leb (snd range) (fst range)
                 then inl (InvalidConfiguration range)
                 else inl (AttributeError "_X_fit_dims"))).
  { unfold TimeSeriesScalerMinMax.transform, range.
    destruct (TimeSeriesScalerMinMax.effective_range mm) as [w r].
    cbn [fst snd]. now destruct (leb _ _). }
  split; [exact E | split; [| reflexivity]].
  rewrite E. destruct (leb _ _); eexists; reflexivity.
Qed.

End FitAndTransform.

(** The claim C5 as it is written fails for a range scaler whose interval is
    refused: fitted on one feature and called on two, it raises
    InvalidConfiguration, not ShapeMismatch. *)
Lemma minmax_mismatch_after_invalid_interval :
  let X0 := [[ [B64.of_Z 0] ]] in
  let X := [[ [B64.of_Z 0; B64.of_Z 0] ]] in
  let self := TimeSeriesScalerMinMax.fit
                (TimeSeriesScalerMinMax.__init__ (B64.of_Z 2, B64.of_Z 1) None None) X0 in
  snd (shape_of X0) <> snd (shape_of X)
  /\ TimeSeriesScalerMinMax.transform self X
     = ([], inl (InvalidConfiguration (B64.of_Z 2, B64.of_Z 1)))
  /\ forall fit_dims dims,
      snd (TimeSeriesScalerMinMax.transform self X) <> inl (ShapeMismatch fit_dims dims).
Proof.
  intros X0 X self. split; [simpl; lia | split; [reflexivity|]].
  intros fit_dims dims. discriminate.
Qed.

Lemma fit_records_shape_then_mismatch_raises_witness :
  let X0 := [[ [B64.of_Z 0] ]] in
  let X := [[ [B64.of_Z 0; B64.of_Z 0] ]] in
  let mm := TimeSeriesScalerMinMax.__init__ (B64.of_Z 1, B64.of_Z 2) None None in
  let mv := TimeSeriesScalerMeanVariance.__init__ (B64.of_Z 0) (B64.of_Z 1) in
  TimeSeriesScalerMinMax.transform (TimeSeriesScalerMinMax.fit mm X0) X
  = ([], inl (ShapeMismatch (1, 1, 1) (1, 1, 2)))
  /\
  TimeSeriesScalerMeanVariance.transform (TimeSeriesScalerMeanVariance.fit mv X0) X
  = inl (ShapeMismatch (1, 1, 1) (1, 1, 2)).
Proof.
  intros X0 X mm mv.
  assert (D : snd (shape_of X0) <> snd (shape_of X)) by (simpl; lia).
  assert (E : TimeSeriesScalerMinMax.effective_range mm
              = ([], (B64.of_Z 1, B64.of_Z 2))) by reflexivity.
  assert (V : leb (B64.of_Z 2) (B64.of_Z 1) = false) by reflexivity.
  exact (proj2 (proj2 (fit_records_shape_then_mismatch_raises mm mv X0 X D E V))).
Defined.

(** ** The extrema of a normalized series *)

(** The least and the greatest known value of a series of the normalized
    dataset are those of the series as it was given. *)
Lemma b64_canonical_extrema (X : dataset B64.t) i di :
  i < length X ->
  is_min_valid (column di (nth i X []))
               (nanmin (column di (nth i (to_time_series_dataset X) [])))
  /\ is_max_valid (column di (nth i X []))
                  (nanmax (column di (nth i (to_time_series_dataset X) []))).
Proof.
  intros Hi.
  pose proof (b64_nanmin_spec (column di (nth i (to_time_series_dataset X) [])))
    as Mn.
  pose proof (b64_nanmax_spec (column di (nth i (to_time_series_dataset X) [])))
    as Mx.
  unfold is_min_valid, is_max_valid in *.
  rewrite to_time_series_dataset_nth in * by assumption.
  rewrite (@canonical_valid_column _ binary64 eq_refl) in Mn, Mx.
  now split.
Qed.

(** ** TimeSeriesScalerMinMax: the affine map *)

(** The claim C7 as it is written fails in binary64 on two counts.  The code
    multiplies by [hi - lo] before it divides by [max - min]: with
    [value_range = (0, 3)] the series [0, 1, 10], whose least and greatest
    values are 0 and 10, has 1 sent to [1 * 3 / 10], which is not the double
    [1 / 10 * 3] of the formula of the claim.  And a dataset without any
    valid step is not given back with its sentinels: numpy.nanmin raises
    on its empty time axis. *)
Lemma minmax_affine_map_counterexample :
  (let X := [[ [B64.of_Z 0]; [B64.of_Z 1]; [B64.of_Z 10] ]] in
   let self := TimeSeriesScalerMinMax.fit
                 (TimeSeriesScalerMinMax.__init__ (B64.of_Z 0, B64.of_Z 3) None None) X in
   exists Y,
     TimeSeriesScalerMinMax.transform self X = ([], inr Y) /\
     is_min_valid (column 0 (nth 0 X [])) (B64.of_Z 0) /\
     is_max_valid (column 0 (nth 0 X [])) (B64.of_Z 10) /\
     position Y 0 1 0 /\
     eqb (at3 Y 0 1 0)
         (affine_spec (B64.of_Z 0) (B64.of_Z 3) (B64.of_Z 0) (B64.of_Z 10)
                      (B64.of_Z 1)) = false)
  /\
  (let X := [[ [S754_nan]; [S754_nan] ]] in
   let self := TimeSeriesScalerMinMax.fit
                 (TimeSeriesScalerMinMax.__init__ (B64.of_Z 1, B64.of_Z 2) None None) X in
   TimeSeriesScalerMinMax.transform self X = ([], inl ZeroSizeReduction)).
Proof.
  split; [| reflexivity].
  intros X self. eexists. split; [reflexivity|].
  split; [| split; [| split]].
  - split; [now left | repeat constructor].
  - split; [right; right; now left | repeat constructor].
  - repeat split; vm_compute; lia.
  - reflexivity.
Qed.

(** C7, as amended.  Binary64.  On a fitted scaler with an accepted
    interval and a compatible shape, [transform] raises when the normalized
    input has no time step at all, and otherwise returns a dataset that holds
    every position [(i, t, di)] of the normalized input, with there the
    sentinel where the input holds the sentinel, and otherwise
    [(x - mn) * (hi - lo) / (mx - mn) + lo], evaluated in this order, where
    [mn] and [mx] are the least and the greatest known value of feature [di]
    of series [i].  With [value_range = (1, 2)], the series [0, 3, 6] becomes
    [1, 1.5, 2] and [NaN, 3, 6] becomes [NaN, 1, 2]. *)
Theorem minmax_affine_map :
  (forall (self : TimeSeriesScalerMinMax.t B64.t) (X : dataset B64.t)
          w lo hi fd,
      TimeSeriesScalerMinMax.effective_range self = (w, (lo, hi)) ->
      leb hi lo = false ->
      TimeSeriesScalerMinMax._X_fit_dims self = Some fd ->
      shape_compatible fd (shape_of X) = true ->
      (0 < length X -> time_steps (to_time_series_dataset X) = 0 ->
       TimeSeriesScalerMinMax.transform self X = (w, inl ZeroSizeReduction))
      /\
      (0 < time_steps (to_time_series_dataset X) ->
       exists Y,
         TimeSeriesScalerMinMax.transform self X = (w, inr Y) /\
         forall i t di,
           in_range (to_time_series_dataset X) i t di ->
           exists mn mx,
             is_min_valid (column di (nth i X [])) mn /\
             is_max_valid (column di (nth i X [])) mx /\
             position Y i t di /\
             at3 Y i t di =
             (let x := at3 (to_time_series_dataset X) i t di in
              if isnan x then nan else affine_code lo hi mn mx x)))
  /\
  (let X := [[ [B64.of_Z 0]; [B64.of_Z 3]; [B64.of_Z 6] ]] in
   TimeSeriesScalerMinMax.transform
     (TimeSeriesScalerMinMax.fit
        (TimeSeriesScalerMinMax.__init__ (B64.of_Z 1, B64.of_Z 2) None None) X) X
   = ([], inr [[ [B64.of_Z 1]; [B64.of_Z2 3 (-1)]; [B64.of_Z 2] ]]))
  /\
  (let X := [[ [S754_nan]; [B64.of_Z 3]; [B64.of_Z 6] ]] in
   TimeSeriesScalerMinMax.transform
     (TimeSeriesScalerMinMax.fit
        (TimeSeriesScalerMinMax.__init__ (B64.of_Z 1, B64.of_Z 2) None None) X) X
   = ([], inr [[ [S754_nan]; [B64.of_Z 1]; [B64.of_Z 2] ]])).
Proof.
  split; [| split; reflexivity].
  intros self X w lo hi fd E V Fd C. split.
  - intros _ L. now apply (minmax_transform_empty self X E V Fd C).
  - intros L.
    eexists. split; [now apply (minmax_transform_ok self X E V Fd C)|].
    intros i t di R.
    assert (Hi : i < length X).
    { destruct R as [(Hi & _) _].
      now rewrite to_time_series_dataset_length in Hi. }
    exists (nanmin (column di (nth i (to_time_series_dataset X) []))),
           (nanmax (column di (nth i (to_time_series_dataset X) []))).
    destruct (b64_canonical_extrema X di Hi) as [Mn Mx].
    split; [exact Mn | split; [exact Mx | split]].
    + now apply rescale_position.
    + rewrite rescale_at by assumption. cbv zeta.
      destruct (isnan (at3 (to_time_series_dataset X) i t di)) eqn:N;
        [| reflexivity].
      apply b64_isnan in N. rewrite N. apply b64_affine_nan.
Qed.

Lemma minmax_affine_map_witness :
  let X := [[ [B64.of_Z 0]; [S754_nan]; [B64.of_Z 4] ]] in
  let self := TimeSeriesScalerMinMax.fit
                (TimeSeriesScalerMinMax.__init__ (B64.of_Z 1, B64.of_Z 2) None None) X in
  exists Y,
    TimeSeriesScalerMinMax.transform self X = ([], inr Y) /\
    forall i t di,
      in_range (to_time_series_dataset X) i t di ->
      exists mn mx,
        is_min_valid (column di (nth i X [])) mn /\
        is_max_valid (column di (nth i X [])) mx /\
        position Y i t di /\
        at3 Y i t di =
        (let x := at3 (to_time_series_dataset X) i t di in
         if isnan x then nan
         else affine_code (B64.of_Z 1) (B64.of_Z 2) mn mx x).
Proof.
  intros X self.
  apply (proj2 (proj1 minmax_affine_map self X [] (B64.of_Z 1) (B64.of_Z 2)
                      (1, 3, 1) eq_refl eq_refl eq_refl eq_refl)).
  vm_compute. lia.
Defined.

(** ** TimeSeriesScalerMeanVariance: the guard on a zero standard deviation *)

(** The claim C3 as it is written fails in binary64 on two counts.  Where a
    value is missing the output is missing: the series [NaN, 3, 3] has a
    computed standard deviation of exactly zero, and its first output is NaN,
    not [mu = 0].  And the computed standard deviation is zero as soon as the
    squares of the deviations underflow: the series [0, 2^-600] has a
    computed mean of [2^-601] and a computed standard deviation of exactly
    zero, and with [mu = 0] and [std = 1] its outputs are [-2^-601] and
    [2^-601], not [mu]. *)
Lemma meanvariance_zero_std_counterexample :
  (let X := [[ [S754_nan]; [B64.of_Z 3]; [B64.of_Z 3] ]] in
   let self := TimeSeriesScalerMeanVariance.fit
                 (TimeSeriesScalerMeanVariance.__init__ (B64.of_Z 0) (B64.of_Z 1)) X in
   let X_ := to_time_series_dataset X in
   eqb (nanstd (one_feature X_) (column 0 (nth 0 X_ []))) zero = true
   /\ TimeSeriesScalerMeanVariance.transform self X
      = inr [[ [S754_nan]; [S754_zero false]; [S754_zero false] ]]
   /\ ~ (forall Y, TimeSeriesScalerMeanVariance.transform self X = inr Y ->
                   forall t, t < 3 ->
                             eqb (at3 Y 0 t 0) (TimeSeriesScalerMeanVariance.mu self) = true))
  /\
  (let X := [[ [B64.of_Z 0]; [B64.of_Z2 1 (-600)] ]] in
   let self := TimeSeriesScalerMeanVariance.fit
                 (TimeSeriesScalerMeanVariance.__init__ (B64.of_Z 0) (B64.of_Z 1)) X in
   let X_ := to_time_series_dataset X in
   eqb (nanstd (one_feature X_) (column 0 (nth 0 X_ []))) zero = true
   /\ nanmean (one_feature X_) (column 0 (nth 0 X_ [])) = B64.of_Z2 1 (-601)
   /\ TimeSeriesScalerMeanVariance.transform self X
      = inr [[ [SFopp (B64.of_Z2 1 (-601))]; [B64.of_Z2 1 (-601)] ]]
   /\ eqb (SFopp (B64.of_Z2 1 (-601))) (TimeSeriesScalerMeanVariance.mu self) = false
   /\ eqb (B64.of_Z2 1 (-601)) (TimeSeriesScalerMeanVariance.mu self) = false).
Proof.
  split.
  - intros X self X_. split; [reflexivity | split; [reflexivity|]].
    intros A. specialize (A _ eq_refl 0 ltac:(lia)). discriminate A.
  - intros X self X_. repeat split; vm_compute; reflexivity.
Qed.

(** C3, as amended.  Binary64.  When the computed standard deviation of
    feature [di] of series [i] is exactly zero, the guard puts 1 in its place
    before the division: [transform] returns a dataset that holds every
    position of that series and feature, with there
    [(x - mean) * std / 1 + mu].  That value is NaN where the input is
    missing, and it equals [mu] where the input equals the computed mean,
    the input, [std] and [mu] being finite. *)
Theorem meanvariance_zero_std_guard
        (self : TimeSeriesScalerMeanVariance.t B64.t) (X : dataset B64.t)
        fd i di :
  TimeSeriesScalerMeanVariance._X_fit_dims self = Some fd ->
  shape_compatible fd (shape_of X) = true ->
  let X_ := to_time_series_dataset X in
  let mean := nanmean (one_feature X_) (column di (nth i X_ [])) in
  eqb (nanstd (one_feature X_) (column di (nth i X_ []))) zero = true ->
  exists Y,
    TimeSeriesScalerMeanVariance.transform self X = inr Y /\
    TimeSeriesScalerMeanVariance.guard
      (nanstd (one_feature X_) (column di (nth i X_ []))) = one /\
    forall t, in_range X_ i t di ->
      let x := at3 X_ i t di in
      position Y i t di /\
      at3 Y i t di
      = add (div (mul (sub x mean) (TimeSeriesScalerMeanVariance.std self)) one)
            (TimeSeriesScalerMeanVariance.mu self) /\
      (isnan x = true -> isnan (at3 Y i t di) = true) /\
      (eqb x mean = true ->
       B64.is_finite x = true ->
       B64.is_finite (TimeSeriesScalerMeanVariance.std self) = true ->
       B64.is_finite (TimeSeriesScalerMeanVariance.mu self) = true ->
       eqb (at3 Y i t di) (TimeSeriesScalerMeanVariance.mu self) = true).
Proof.
  intros Fd C X_ mean Z.
  eexists. split; [now apply (meanvariance_transform_ok self X Fd C)|].
  split; [unfold TimeSeriesScalerMeanVariance.guard; now rewrite Z|].
  intros t R x. split; [now apply standardize_position|].
  fold X_. rewrite zero_std_substituted by assumption. fold mean x.
  split; [reflexivity | split].
  - intros N. apply b64_isnan in N. rewrite N. reflexivity.
  - intros Ex Fx Fs Fm.
    apply b64_add_zero_l; [| now apply b64_finite].
    apply b64_div_zero_l; [| reflexivity].
    apply b64_mul_zero_l; [| now apply b64_finite].
    now apply b64_eqb_sub_zero.
Qed.

Lemma meanvariance_zero_std_guard_witness :
  let X := [[ [S754_nan]; [B64.of_Z 3]; [B64.of_Z 3] ]] in
  let self := TimeSeriesScalerMeanVariance.fit
                (TimeSeriesScalerMeanVariance.__init__ (B64.of_Z 5) (B64.of_Z 2)) X in
  exists Y,
    TimeSeriesScalerMeanVariance.transform self X = inr Y /\
    position Y 0 1 0 /\
    eqb (at3 Y 0 1 0) (B64.of_Z 5) = true /\
    isnan (at3 Y 0 0 0) = true.
Proof.
  intros X self.
  destruct (@meanvariance_zero_std_guard self X (1, 3, 1) 0 0
              eq_refl eq_refl eq_refl) as (Y & E & _ & A).
  exists Y. split; [exact E|].
  assert (R1 : in_range (to_time_series_dataset X) 0 1 0)
    by (repeat split; vm_compute; lia).
  assert (R0 : in_range (to_time_series_dataset X) 0 0 0)
    by (repeat split; vm_compute; lia).
  destruct (A 1 R1) as (P & _ & _ & M).
  destruct (A 0 R0) as (_ & _ & N & _).
  split; [exact P | split].
  - apply M; reflexivity.
  - apply N. reflexivity.
Defined.
(** ** numpy.sum: what is added, and in which order *)

Section AddReduceMorphism.
Context {A B : Type} (z : A) (plus : A -> A -> A)
        (z' : B) (plus' : B -> B -> B) (h : A -> B).
Hypothesis h_zero : h z = z'.
Hypothesis h_plus : forall a b, h (plus a b) = plus' (h a) (h b).

Lemma add_each_morphism l : forall res,
  h (add_each plus res l) = add_each plus' (h res) (map h l).
Proof.
  unfold add_each. induction l as [|a l IH]; intros res; simpl;
    [reflexivity|]. now rewrite IH, h_plus.
Qed.

Lemma map2_morphism : forall r l,
  map h (map2 plus r l) = map2 plus' (map h r) (map h l).
Proof.
  induction r as [|a r IH]; intros [|b l]; simpl; try reflexivity.
  now rewrite h_plus, IH.
Qed.

Lemma add_blocks_morphism k : forall r l,
  add_blocks plus' k (map h r) (map h l)
  = (map h (fst (add_blocks plus k r l)), map h (snd (add_blocks plus k r l))).
Proof.
  induction k as [|k IH]; intros r l; cbn [add_blocks]; [reflexivity|].
  rewrite <- IH. now rewrite map2_morphism, firstn_map, skipn_map.
Qed.

Lemma block_sum_morphism l :
  h (block_sum z plus l) = block_sum z' plus' (map h l).
Proof.
  unfold block_sum.
  rewrite length_map, firstn_map, skipn_map, add_blocks_morphism.
  destruct (add_blocks plus _ _ _) as [r rest]. cbn [fst snd].
  rewrite add_each_morphism, !h_plus. rewrite <- h_zero.
  now rewrite !map_nth.
Qed.

Lemma pairwise_sum_morphism fuel : forall l,
  h (pairwise_sum z plus fuel l) = pairwise_sum z' plus' fuel (map h l).
Proof.
  induction fuel as [|fuel IH]; intros l; cbn [pairwise_sum];
    rewrite length_map;
    destruct (length l <? 8);
    try (rewrite add_each_morphism, h_zero; reflexivity);
    destruct (length l <=? 128); try apply block_sum_morphism.
  rewrite h_plus, !IH. now rewrite firstn_map, skipn_map.
Qed.

Lemma add_reduce_morphism c l :
  h (add_reduce z plus c l) = add_reduce z' plus' c (map h l).
Proof.
  unfold add_reduce. destruct c.
  - now rewrite h_plus, h_zero, pairwise_sum_morphism, length_map.
  - now rewrite add_each_morphism, h_zero.
Qed.
End AddReduceMorphism.

Section KnownTerms.
Context {A : Type}.
Implicit Types a b : addition (option A).

Lemma present_app (l l' : list (option A)) :
  present (l ++ l') = present l ++ present l'.
Proof.
  induction l as [|[x|] l IH]; simpl; [reflexivity | now rewrite IH | exact IH].
Qed.

Lemma known_terms_plus a b :
  known_terms (Plus a b) = known_terms a ++ known_terms b.
Proof. apply present_app. Qed.

Lemma add_each_known l : forall res : addition (option A),
  known_terms (add_each (@Plus _) res l)
  = known_terms res ++ flat_map known_terms l.
Proof.
  unfold add_each. induction l as [|a l IH]; intros res; simpl.
  - now rewrite app_nil_r.
  - now rewrite IH, known_terms_plus, app_assoc.
Qed.

Lemma map2_known : forall r l : list (addition (option A)),
  length r = length l ->
  Permutation (flat_map known_terms (map2 (@Plus _) r l))
              (flat_map known_terms r ++ flat_map known_terms l).
Proof.
  induction r as [|a r IH]; intros [|b l] L; try discriminate L;
    [constructor|].
  cbn [map2 flat_map]. rewrite known_terms_plus, <- !app_assoc.
  apply Permutation_app_head.
  eapply perm_trans;
    [apply Permutation_app_head, IH; simpl in L; lia|].
  apply Permutation_app_swap_app.
Qed.

Lemma flat_map_split {B} (f : B -> list A) n (l : list B) :
  flat_map f (firstn n l) ++ flat_map f (skipn n l) = flat_map f l.
Proof. now rewrite <- flat_map_app, firstn_skipn. Qed.

Lemma add_blocks_known k : forall r l : list (addition (option A)),
  length r = 8 -> 8 * k <= length l ->
  length (fst (add_blocks (@Plus _) k r l)) = 8 /\
  Permutation
    (flat_map known_terms (fst (add_blocks (@Plus _) k r l))
       ++ flat_map known_terms (snd (add_blocks (@Plus _) k r l)))
    (flat_map known_terms r ++ flat_map known_terms l).
Proof.
  induction k as [|k IH]; intros r l Lr Ll; cbn [add_blocks fst snd].
  - split; [exact Lr | apply Permutation_refl].
  - assert (L8 : length (firstn 8 l) = 8) by (rewrite length_firstn; lia).
    destruct (IH (map2 (@Plus _) r (firstn 8 l)) (skipn 8 l)) as [L P].
    + rewrite map2_length, Lr, L8. reflexivity.
    + rewrite length_skipn. lia.
    + split; [exact L|].
      eapply perm_trans; [exact P|].
      rewrite <- (flat_map_split known_terms 8 l).
      rewrite app_assoc. apply Permutation_app_tail.
      apply map2_known. now rewrite Lr, L8.
Qed.

Lemma block_sum_known (z : addition (option A)) (l : list (addition (option A))) :
  8 <= length l ->
  Permutation (known_terms (block_sum z (@Plus _) l)) (flat_map known_terms l).
Proof.
  intros L. unfold block_sum.
  destruct (add_blocks_known (length l / 8 - 1) (firstn 8 l) (skipn 8 l))
    as [L8 P].
  - rewrite length_firstn. lia.
  - rewrite length_skipn.
    pose proof (Nat.Div0.mul_div_le (length l) 8). lia.
  - destruct (add_blocks _ _ _ _) as [r rest]. cbn [fst snd] in L8, P.
    rewrite add_each_known.
    rewrite flat_map_split in P.
    eapply perm_trans; [| exact P].
    apply Permutation_app_tail.
    destruct r as [|r0 [|r1 [|r2 [|r3 [|r4 [|r5 [|r6 [|r7 [|r8 r]]]]]]]]];
      try discriminate L8.
    cbn [nth flat_map]. rewrite !known_terms_plus, app_nil_r, <- !app_assoc.
    apply Permutation_refl.
Qed.

Lemma pairwise_sum_known fuel : forall l : list (addition (option A)),
  Permutation (known_terms (pairwise_sum (Term None) (@Plus _) fuel l))
              (flat_map known_terms l).
Proof.
  induction fuel as [|fuel IH]; intros l; cbn [pairwise_sum];
    destruct (Nat.ltb_spec (length l) 8) as [L | L];
    try (rewrite add_each_known; apply Permutation_refl);
    destruct (length l <=? 128); try (now apply block_sum_known).
  rewrite known_terms_plus, <- (flat_map_split known_terms
                                   (length l / 2 - (length l / 2) mod 8) l).
  apply Permutation_app; apply IH.
Qed.

Lemma add_reduce_known c (l : list (addition (option A))) :
  Permutation (known_terms (add_reduce (Term None) (@Plus _) c l))
              (flat_map known_terms l).
Proof.
  unfold add_reduce. destruct c.
  - rewrite known_terms_plus. apply pairwise_sum_known.
  - rewrite add_each_known. apply Permutation_refl.
Qed.
End KnownTerms.

Section SumOfKnown.
Context {F : Type} `{Number F}.

Lemma present_known (col : list F) : present (map known col) = valid col.
Proof.
  unfold valid, known. induction col as [|x col IH]; simpl; [reflexivity|].
  destruct (isnan x); simpl; now rewrite IH.
Qed.

Lemma known_terms_of_column (col : list F) :
  flat_map known_terms (map (@Term _) (map known col)) = valid col.
Proof.
  rewrite <- present_known.
  induction (map known col) as [|o l IH]; simpl; [reflexivity|].
  rewrite IH. unfold known_terms. simpl. now destruct o.
Qed.

(** numpy.sum of a column with its NaN replaced by 0 is the value of an
    addition whose terms are zeros and the known values of the column. *)
Lemma sum_as_addition c (col : list F) :
  let T := add_reduce (Term None) (@Plus _) c (map (@Term _) (map known col)) in
  value_or_zero T = sum c (_replace_nan col zero)
  /\ Permutation (known_terms T) (valid col).
Proof.
  intros T. split.
  - unfold T, sum.
    rewrite (@add_reduce_morphism _ _ (Term None) (@Plus _) zero add
               value_or_zero eq_refl (fun _ _ => eq_refl)).
    f_equal. unfold _replace_nan. rewrite !map_map. apply map_ext.
    intros x. unfold known. now destruct (isnan x).
  - unfold T. eapply perm_trans; [apply add_reduce_known|].
    rewrite known_terms_of_column. apply Permutation_refl.
Qed.

Lemma count_valid (col : list F) : count col = length (valid col).
Proof. reflexivity. Qed.
End SumOfKnown.

Section Binary64Sums.
Local Open Scope num_scope.

(** The zeros that stand for nothing can be left out of an addition. *)
Lemma b64_drop_zeros (T : addition (option B64.t)) :
  match known_terms T with
  | [] => value_or_zero T = zero
  | _ :: _ =>
      exists a : addition B64.t,
        terms a = known_terms T /\ B64.alike (value a) (value_or_zero T)
  end.
Proof.
  induction T as [[x|] | T1 IH1 T2 IH2].
  - exists (Term x). split; [reflexivity | apply alike_refl].
  - reflexivity.
  - rewrite known_terms_plus. cbn [value_or_zero].
    destruct (known_terms T1) as [|k1 l1], (known_terms T2) as [|k2 l2];
      cbn [app].
    + now rewrite IH1, IH2.
    + destruct IH2 as (a & Ta & Va). exists a. split; [exact Ta|].
      rewrite IH1. apply alike_sym.
      eapply alike_trans; [now apply alike_add_zero_l|].
      now apply alike_sym.
    + destruct IH1 as (a & Ta & Va). exists a. split;
        [now rewrite app_nil_r|].
      rewrite IH2. apply alike_sym.
      eapply alike_trans; [now apply alike_add_zero_r|].
      now apply alike_sym.
    + destruct IH1 as (a1 & Ta1 & Va1), IH2 as (a2 & Ta2 & Va2).
      exists (Plus a1 a2). split.
      * cbn [terms]. now rewrite Ta1, Ta2.
      * cbn [value]. now apply alike_add.
Qed.

(** numpy.sum of a column with its NaN replaced by 0 is a sum of the known
    values of the column. *)
Lemma b64_sum_of_known c (col : list B64.t) :
  is_sum_of (valid col) (sum c (_replace_nan col zero)).
Proof.
  destruct (sum_as_addition c col) as [V P]. rewrite <- V.
  pose proof (b64_drop_zeros
                (add_reduce (Term None) (@Plus _) c
                            (map (@Term _) (map known col)))) as D.
  unfold is_sum_of.
  destruct (known_terms _) as [|k l].
  - apply Permutation_nil in P. rewrite P, D. reflexivity.
  - destruct (valid col) as [|v vs];
      [apply Permutation_sym, Permutation_nil in P; discriminate P|].
    destruct D as (a & Ta & Va). exists a. split.
    + now rewrite Ta.
    + now apply b64_same_alike.
Qed.
End Binary64Sums.
(** The recursion of the pairwise sum has fuel enough with the length of the
    list: more fuel changes nothing. *)
Lemma pairwise_sum_fuel {A : Type} (z : A) (plus : A -> A -> A) fuel :
  forall fuel' (l : list A),
    length l <= fuel + 128 -> length l <= fuel' + 128 ->
    pairwise_sum z plus fuel l = pairwise_sum z plus fuel' l.
Proof.
  induction fuel as [|fuel IH]; intros [|fuel'] l L L'; cbn [pairwise_sum];
    destruct (Nat.ltb_spec (length l) 8) as [L8 | L8]; try reflexivity;
    destruct (Nat.leb_spec (length l) 128) as [Lb | Lb]; try reflexivity;
    try lia.
  pose proof (Nat.Div0.mul_div_le (length l) 2) as D.
  pose proof (Nat.mod_upper_bound (length l / 2) 8 ltac:(lia)) as M.
  assert (D' : 64 <= length l / 2).
  { apply Nat.div_le_lower_bound; lia. }
  f_equal; apply IH; rewrite ?length_firstn, ?length_skipn; lia.
Qed.

(** ** TimeSeriesResampler with a target size of one *)

Section UnitSize.
Local Open Scope num_scope.

(** With a target size of one: the rows of the output and their values. *)
Lemma b64_unit_size_rows (X : dataset B64.t) :
  0 < time_steps (to_time_series_dataset X) ->
  exists Y,
    TimeSeriesResampler.transform (TimeSeriesResampler.__init__ 1) X = inr Y /\
    length Y = length X /\
    forall i, i < length X ->
      exists row,
        nth i Y [] = [row] /\
        length row = snd (shape_of (to_time_series_dataset X)) /\
        forall di, di < snd (shape_of (to_time_series_dataset X)) ->
          exists total,
            is_sum_of (valid (column di (nth i X []))) total /\
            nth di row nan
            = total / of_nat (length (valid (column di (nth i X [])))).
Proof.
  intros _. eexists. split; [reflexivity|].
  unfold TimeSeriesResampler._transform_unit_sz.
  destruct (shape_of (to_time_series_dataset X)) as [[n_ts sz] d] eqn:E.
  cbn [TimeSeriesResampler.sz_ TimeSeriesResampler.__init__ repeat snd].
  split; [now rewrite length_map, to_time_series_dataset_length|].
  intros i Hi. eexists. split; [| split].
  - rewrite (nth_map_in _ _ [] []) by (now rewrite to_time_series_dataset_length).
    reflexivity.
  - now rewrite length_map, length_seq.
  - intros di Hd.
    rewrite (nth_map_seq
               (fun k => nanmean (d =? 1)
                                 (column k (nth i (to_time_series_dataset X) [])))
               nan Hd).
    unfold nanmean. rewrite count_valid.
    pose proof (b64_sum_of_known
                  (d =? 1) (column di (nth i (to_time_series_dataset X) [])))
      as S.
    rewrite to_time_series_dataset_nth in * by assumption.
    rewrite (@canonical_valid_column _ binary64 eq_refl) in *.
    eexists. split; [exact S | reflexivity].
Qed.

End UnitSize.

Section SplineFacts.
Context {F : Type} `{Number F}.
Local Open Scope num_scope.


Lemma mapM_raises {A B} (f : A -> result F B) l a e :
  In a l -> f a = inl e -> exists e', mapM f l = inl e'.
Proof.
  induction l as [|b l IH]; intros I E; [destruct I|]. simpl.
  destruct I as [-> | I].
  - rewrite E. eauto.
  - destruct (f b); [eauto|].
    destruct (IH I E) as (e' & ->). eauto.
Qed.


End SplineFacts.
Lemma interp_too_short {F : Type} `{Number F} (x y : list F) :
  length x < 2 -> interp1d x y = inl InterpolationError.
Proof.
  intros S. unfold interp1d.
  destruct (negb (length x =? length y)); [reflexivity|].
  destruct (negb (strictly_increasing x)); [reflexivity|].
  destruct (Nat.ltb_spec (length x) 2) as [_ | ?]; [reflexivity | lia].
Qed.

Section ValidLength.
Context {F : Type} `{Number F}.
Hypothesis isnan_nan : isnan nan = true.

Lemma max_of_equal (l : list nat) m :
  l <> [] -> (forall n, In n l -> n = m) -> fold_right Nat.max 0 l = m.
Proof.
  induction l as [|n l IH]; intros NE A; [congruence|]. simpl.
  assert (n = m) by (apply A; now left). subst n.
  destruct l as [|n' l']; [simpl; lia|].
  rewrite IH; [lia | discriminate | intros; apply A; now right].
Qed.

(** In the canonical layout of an equal-size dataset every series is as
    long as its valid length. *)
Lemma equal_size_length (X : dataset F) Xi :
  check_equal_size (to_time_series_dataset X) = true ->
  In Xi (to_time_series_dataset X) ->
  ts_size Xi = snd (fst (shape_of (to_time_series_dataset X))).
Proof.
  rewrite to_time_series_dataset_map. intros E I.
  unfold shape_of. cbn [fst snd].
  destruct X as [|s0 r] eqn:EX; [destruct I|]. rewrite <- EX in *.
  assert (I0 : In s0 X) by (rewrite EX; now left).
  assert (A : forall ts, In ts X -> ts_size ts = ts_size s0).
  { intros ts It. rewrite EX in It. destruct It as [<- | It]; [reflexivity|].
    rewrite EX in E at 2. cbn [map check_equal_size] in E.
    rewrite forallb_forall in E.
    specialize (E _ (in_map _ _ _ It)). apply Nat.eqb_eq in E.
    now rewrite !canonical_ts_size in E. }
  assert (M : fold_right Nat.max 0 (map ts_size X) = ts_size s0).
  { apply max_of_equal; [rewrite EX; discriminate|].
    intros n Hn. apply in_map_iff in Hn. destruct Hn as (ts & <- & It). auto. }
  apply in_map_iff in I. destruct I as (ts & <- & It).
  rewrite canonical_ts_size by assumption.
  rewrite EX at 2. cbn [map hd].
  rewrite canonical_length by assumption.
  rewrite M. now apply A.
Qed.

(** The length the resampler uses for a series is its valid length, in both
    branches. *)
Lemma resampler_length (X : dataset F) Xi :
  In Xi (to_time_series_dataset X) ->
  (if check_equal_size (to_time_series_dataset X)
   then snd (fst (shape_of (to_time_series_dataset X)))
   else ts_size Xi) = ts_size Xi.
Proof.
  intros I. destruct (check_equal_size _) eqn:E; [| reflexivity].
  symmetry. now apply equal_size_length.
Qed.



Lemma from_columns_length sz (cols : list (list F)) :
  length (from_columns nan sz cols) = sz.
Proof. unfold from_columns. now rewrite length_map, length_seq. Qed.

End ValidLength.

Section ValidPrefix.
Context {F : Type} `{Number F}.
Hypothesis isnan_nan : isnan nan = true.



End ValidPrefix.
Section ShortSeries.
Context {F : Type} `{Number F}.
Hypothesis isnan_nan : isnan nan = true.

Lemma linspace_length (start stop : F) num : length (linspace start stop num) = num.
Proof.
  unfold linspace.
  set (y := map (fun v => add v start) _).
  assert (Ly : length y = num).
  { unfold y. rewrite length_map.
    destruct (0 <? num - 1); [destruct (eqb _ _)|];
      now rewrite !length_map, length_seq. }
  destruct (Nat.ltb_spec 1 num) as [L | L]; [| exact Ly].
  rewrite length_app, removelast_firstn_len, length_firstn. simpl. lia.
Qed.

(** A series with fewer than two valid steps makes the whole call raise, as
    soon as there is a feature to interpolate and the target size is not
    one. *)
Lemma resampler_short_series_raises sz_ (X : dataset F) ts :
  sz_ <> 1 ->
  In ts X -> ts_size ts < 2 ->
  0 < snd (shape_of (to_time_series_dataset X)) ->
  exists e,
    TimeSeriesResampler.transform (TimeSeriesResampler.__init__ sz_) X = inl e.
Proof.
  intros Hsz I S D. unfold TimeSeriesResampler.transform.
  cbn [TimeSeriesResampler.sz_ TimeSeriesResampler.__init__].
  destruct (Nat.eqb_spec sz_ 1) as [? | _]; [contradiction|].
  pose proof (resampler_length isnan_nan X) as RL.
  destruct (shape_of (to_time_series_dataset X)) as [[n_ts sz] d] eqn:ES.
  cbn [fst snd] in RL, D |- *.
  assert (Ic : In (canonical_series X ts) (to_time_series_dataset X)).
  { rewrite to_time_series_dataset_map. now apply in_map. }
  eapply mapM_raises; [exact Ic|].
  rewrite (RL _ Ic), canonical_ts_size by assumption.
  destruct d as [|d]; [lia|].
  cbn [seq mapM bind].
  rewrite interp_too_short by (now rewrite linspace_length).
  reflexivity.
Qed.
End ShortSeries.
(** ** The grids of binary64 *)

Section Grids.
Context {F : Type} `{Number F}.



End Grids.

Section Binary64Grid.
Local Open Scope num_scope.










End Binary64Grid.

(** ** TimeSeriesResampler with a target size of two or more *)


Section ResamplerEndpoints.
Local Open Scope num_scope.


End ResamplerEndpoints.

(** ** The output array of the resampler, written in place *)

Section Loops.
Context {F : Type}.

Lemma mapM_inr_length {A B} (f : A -> result F B) l bs :
  mapM f l = inr bs -> length bs = length l.
Proof.
  revert bs. induction l as [|a l IH]; intros bs E; simpl in E.
  - assert (bs = []) by congruence. now subst bs.
  - destruct (f a) as [e|b]; [discriminate|].
    destruct (mapM f l) as [e|bs']; [discriminate|].
    assert (bs = b :: bs') by congruence. subst bs. simpl. now rewrite (IH bs').
Qed.

Lemma mapM_inr_in {A B} (f : A -> result F B) l bs b :
  mapM f l = inr bs -> In b bs -> exists a, In a l /\ f a = inr b.
Proof.
  revert bs. induction l as [|a l IH]; intros bs E I; simpl in E.
  - assert (bs = []) by congruence. subst bs. destruct I.
  - destruct (f a) as [e|b'] eqn:Fa; [discriminate|].
    destruct (mapM f l) as [e|bs']; [discriminate|].
    assert (bs = b' :: bs') by congruence. subst bs.
    destruct I as [<- | I].
    + exists a. split; [now left | exact Fa].
    + destruct (IH _ eq_refl I) as (a' & Ia & Ea).
      exists a'. split; [now right | exact Ea].
Qed.

Lemma mapM_inl_in {A B} (f : A -> result F B) l e :
  mapM f l = inl e -> exists a, In a l /\ f a = inl e.
Proof.
  induction l as [|a l IH]; intros E; simpl in E; [discriminate|].
  destruct (f a) as [e'|b] eqn:Fa.
  - exists a. split; [now left | congruence].
  - destruct (mapM f l) as [e'|bs']; [| discriminate].
    destruct IH as (a' & Ia & Ea); [congruence|].
    exists a'. split; [now right | exact Ea].
Qed.

Lemma mapM_map {A A' B} (h : A' -> A) (f : A -> result F B) l :
  mapM f (map h l) = mapM (fun a => f (h a)) l.
Proof.
  induction l as [|a l IH]; simpl; [reflexivity|]. now rewrite IH.
Qed.

(** A loop that collects [g x] for the [x] its body computes. *)
Lemma mapM_ret {A B C} (f : A -> result F B) (g : B -> C) l :
  mapM (fun a => x <- f a ;; ret (g x)) l =
  (xs <- mapM f l ;; ret (map g xs)).
Proof.
  induction l as [|a l IH]; simpl; [reflexivity|].
  destruct (f a) as [e|b]; simpl; [reflexivity|].
  rewrite IH. destruct (mapM f l); reflexivity.
Qed.

Lemma foldM_ext {A B} (f g : B -> A -> result F B) l : forall b,
  (forall b a, f b a = g b a) -> foldM f l b = foldM g l b.
Proof.
  induction l as [|a l IH]; intros b E; simpl; [reflexivity|].
  rewrite E. destruct (g b a); [reflexivity | now apply IH].
Qed.

(** A loop whose body computes [x] from the loop variable alone and then
    updates the accumulator with it: the computations can be run first, the
    updates afterwards. *)
Lemma foldM_split {A B C} (f : A -> result F C) (g : A -> C -> B -> B) l :
  forall b,
    foldM (fun b a => x <- f a ;; ret (g a x b)) l b =
    (xs <- mapM f l ;;
     ret (fold_left (fun b p => g (fst p) (snd p) b) (combine l xs) b)).
Proof.
  induction l as [|a l IH]; intros b; simpl; [reflexivity|].
  destruct (f a) as [e|x]; simpl; [reflexivity|].
  rewrite IH. destruct (mapM f l); reflexivity.
Qed.
End Loops.

Section Updates.
Context {A : Type}.

Lemma update_app (pre l : list A) (f : A -> A) x :
  update (length pre) f (pre ++ x :: l) = pre ++ f x :: l.
Proof. induction pre as [|p pre IH]; simpl; [reflexivity | now rewrite IH]. Qed.

(** Two assignments to the same place. *)
Lemma update_update k (f g : A -> A) (l : list A) :
  update k f (update k g l) = update k (fun a => f (g a)) l.
Proof.
  revert k. induction l as [|a l IH]; intros [|k]; simpl; try reflexivity.
  now rewrite IH.
Qed.

Lemma update_id k (l : list A) : update k (fun a => a) l = l.
Proof.
  revert k. induction l as [|a l IH]; intros [|k]; simpl; try reflexivity.
  now rewrite IH.
Qed.

(** Assigning to the places [a, a + 1, ...] in turn. *)
Lemma fold_update_seq {C} (h : C -> A -> A) (cs : list C) : forall l pre,
  length cs = length l ->
  fold_left (fun acc p => update (fst p) (h (snd p)) acc)
            (combine (seq (length pre) (length cs)) cs) (pre ++ l)
  = pre ++ map2 h cs l.
Proof.
  induction cs as [|c cs IH]; intros [|x l] pre L; try discriminate L.
  - reflexivity.
  - cbn [length seq combine fold_left fst snd map2].
    rewrite update_app.
    replace (pre ++ h c x :: l) with ((pre ++ [h c x]) ++ l)
      by (now rewrite <- app_assoc).
    replace (S (length pre)) with (length (pre ++ [h c x]))
      by (rewrite length_app; simpl; lia).
    rewrite IH by (simpl in L; lia).
    now rewrite <- app_assoc.
Qed.

(** Repeated assignments to one place amount to one. *)
Lemma fold_update_same {C} k (w : C -> A -> A) (qs : list C) : forall l,
  fold_left (fun acc q => update k (w q) acc) qs l
  = update k (fun a => fold_left (fun a q => w q a) qs a) l.
Proof.
  induction qs as [|q qs IH]; intros l; cbn [fold_left].
  - symmetry. apply update_id.
  - rewrite IH. apply update_update.
Qed.

Lemma map_nth_seq (l : list A) dflt :
  map (fun i => nth i l dflt) (seq 0 (length l)) = l.
Proof.
  induction l as [|a l IH]; simpl; [reflexivity|].
  f_equal. rewrite <- seq_shift, map_map. exact IH.
Qed.

Lemma map_const {B} (b : B) (l : list A) :
  map (fun _ => b) l = repeat b (length l).
Proof. induction l as [|a l IH]; simpl; [reflexivity | now rewrite IH]. Qed.
End Updates.

Section Lists2.
Context {A B C D : Type}.

Lemma map2_map_same (f : B -> C -> D) (g : A -> B) (h : A -> C) l :
  map2 f (map g l) (map h l) = map (fun a => f (g a) (h a)) l.
Proof. induction l as [|a l IH]; simpl; [reflexivity | now rewrite IH]. Qed.

Lemma map2_fst (f : A -> D) (l : list A) (l' : list B) :
  length l = length l' -> map2 (fun a _ => f a) l l' = map f l.
Proof.
  revert l'. induction l as [|a l IH]; intros [|c l'] L; try discriminate L;
    simpl; [reflexivity|]. rewrite IH by (simpl in L; lia). reflexivity.
Qed.
End Lists2.
Section MoreUpdates.
Context {A : Type}.

Lemma fold_update_range (g : nat -> A -> A) : forall (l pre : list A),
  fold_left (fun acc i => update i (g i) acc)
            (seq (length pre) (length l)) (pre ++ l)
  = pre ++ map2 g (seq (length pre) (length l)) l.
Proof.
  induction l as [|x l IH]; intros pre; [reflexivity|].
  cbn [length seq fold_left map2].
  rewrite update_app.
  replace (pre ++ g (length pre) x :: l)
    with ((pre ++ [g (length pre) x]) ++ l) by (now rewrite <- app_assoc).
  replace (S (length pre)) with (length (pre ++ [g (length pre) x]))
    by (rewrite length_app; simpl; lia).
  rewrite IH. now rewrite <- app_assoc.
Qed.

Lemma fold_left_ext {B} (f g : A -> B -> A) l : forall a,
  (forall a b, f a b = g a b) -> fold_left f l a = fold_left g l a.
Proof.
  induction l as [|b l IH]; intros a E; simpl; [reflexivity|].
  rewrite E. now apply IH.
Qed.

Lemma map2_seq_map {B C} (f : A -> B -> C) (h : A -> B) (l : list A) :
  map2 f l (map h l) = map (fun a => f a (h a)) l.
Proof. induction l as [|a l IH]; simpl; [reflexivity | now rewrite IH]. Qed.

Lemma map2_ext_in {B C} (f g : A -> B -> C) : forall l l',
  (forall a b, In a l -> In b l' -> f a b = g a b) ->
  map2 f l l' = map2 g l l'.
Proof.
  induction l as [|a l IH]; intros [|b l'] E; simpl; try reflexivity.
  rewrite (E a b) by now left.
  rewrite IH by (intros; apply E; now right). reflexivity.
Qed.
End MoreUpdates.

Section InPlace.
Context {F : Type} `{Number F}.

(** The loop of [_transform_unit_sz] overwrites every entry of the array
    that numpy.empty returned. *)
Lemma unit_sz_in_place uninit (self : TimeSeriesResampler.t) (X : dataset F) :
  TimeSeriesResampler._transform_unit_sz_in_place uninit self X
  = TimeSeriesResampler._transform_unit_sz self X.
Proof.
  unfold TimeSeriesResampler._transform_unit_sz_in_place,
    TimeSeriesResampler._transform_unit_sz, shape_of, empty, assign_series.
  set (d := length (hd [] (hd [] X))).
  set (row := fun Xi => map (fun di => nanmean (d =? 1) (column di Xi)) (seq 0 d)).
  set (B0 := map _ (seq 0 (length X))).
  assert (L0 : length B0 = length X)
    by (unfold B0; now rewrite length_map, length_seq).
  pose proof (fold_update_range
                (fun i => map (fun _ : list F => row (nth i X []))) B0 [])
    as U.
  cbn [length app] in U. rewrite L0 in U.
  etransitivity; [exact U|]. clear U.
  unfold B0. rewrite map2_seq_map.
  etransitivity;
    [| apply (f_equal (map (fun Xi => repeat (row Xi) (TimeSeriesResampler.sz_ self)))
                      (map_nth_seq X []))].
  rewrite map_map.
  apply map_ext. intros i.
  now rewrite map_const, length_map, length_seq.
Qed.

(** The column written for feature [di] of a series has [sz_] entries. *)
Lemma interpolated_length (x y xnew col : list F) :
  (f <- interp1d x y ;; f xnew) = inr col -> length col = length xnew.
Proof.
  unfold interp1d, bind, raise, ret.
  destruct (negb _); [discriminate|].
  destruct (negb _); [discriminate|].
  destruct (_ <? 2); [discriminate|].
  destruct (existsb _ _); [discriminate|].
  intros E. inversion E. apply length_map.
Qed.

(** Writing the columns [cols] one after the other into the steps [st t] of
    one series leaves the steps [from_columns] reads back. *)
Lemma assign_columns_steps sz_ (qs : list (nat * list F)) :
  forall st : nat -> list F,
    Forall (fun q => length (snd q) = sz_) qs ->
    fold_left (fun Xi q =>
                 map2 (fun s v => update (fst q) (fun _ => v) s) Xi (snd q))
              qs (map st (seq 0 sz_))
    = map (fun t =>
             fold_left (fun s q =>
                          update (fst q) (fun _ => nth t (snd q) nan) s)
                       qs (st t))
          (seq 0 sz_).
Proof.
  induction qs as [|[k col] qs IH]; intros st L; cbn [fold_left fst snd];
    [reflexivity|].
  assert (Lc : length col = sz_) by (now inversion L).
  rewrite <- (map_nth_seq col nan) at 1. rewrite Lc.
  rewrite map2_map_same.
  rewrite (IH (fun t => update k (fun _ => nth t col nan) (st t)))
    by (now inversion L).
  reflexivity.
Qed.

Lemma assign_columns_series sz_ d (cols : list (list F)) (st : nat -> list F) :
  length cols = d ->
  Forall (fun col => length col = sz_) cols ->
  (forall t, length (st t) = d) ->
  fold_left (fun Xi q =>
               map2 (fun s v => update (fst q) (fun _ => v) s) Xi (snd q))
            (combine (seq 0 d) cols) (map st (seq 0 sz_))
  = from_columns nan sz_ cols.
Proof.
  intros Ld Lc Ls. rewrite assign_columns_steps.
  - unfold from_columns. apply map_ext. intros t.
    pose proof (@fold_update_seq _ _ (fun c (_ : F) => nth t c nan) cols
                                 (st t) []) as U.
    cbn [length app] in U. rewrite Ld in U.
    rewrite U by (now rewrite Ls).
    apply map2_fst. now rewrite Ls.
  - apply Forall_forall. intros [k col] I. apply in_combine_r in I.
    rewrite Forall_forall in Lc. now apply Lc.
Qed.

(** The loops of [transform] overwrite every entry of the array that
    numpy.empty returned, or raise. *)
Lemma resampler_in_place uninit (self : TimeSeriesResampler.t) (X : dataset F) :
  TimeSeriesResampler.transform_in_place uninit self X
  = TimeSeriesResampler.transform self X.
Proof.
  unfold TimeSeriesResampler.transform_in_place, TimeSeriesResampler.transform.
  set (X_ := to_time_series_dataset X).
  destruct (TimeSeriesResampler.sz_ self =? 1).
  { now rewrite unit_sz_in_place. }
  unfold shape_of, empty.
  set (n := length X_). set (sz := length (hd [] X_)).
  set (d := length (hd [] (hd [] X_))).
  set (sz_ := TimeSeriesResampler.sz_ self).
  set (size := fun Xi : list (list F) =>
                 if check_equal_size X_ then sz else ts_size Xi).
  set (c := fun Xi di =>
              f <- interp1d (linspace zero one (size Xi))
                            (column di (firstn (size Xi) Xi)) ;;
              f (linspace zero one sz_)).
  set (B0 := map _ (seq 0 n)).
  (* the inner loop *)
  rewrite (foldM_ext
             _
             (fun X_out i =>
                cols <- mapM (c (nth i X_ [])) (seq 0 d) ;;
                ret (fold_left
                       (fun b p => assign_column i (fst p) (snd p) b)
                       (combine (seq 0 d) cols) X_out))).
  2:{ intros b i. rewrite <- foldM_split. apply foldM_ext.
      intros b' di. unfold c, bind. now destruct (interp1d _ _). }
  (* the outer loop *)
  rewrite (foldM_split
             (fun i => mapM (c (nth i X_ [])) (seq 0 d))
             (fun i cols X_out =>
                fold_left (fun b p => assign_column i (fst p) (snd p) b)
                          (combine (seq 0 d) cols) X_out)).
  (* the function *)
  rewrite (mapM_ret (fun Xi => mapM (c Xi) (seq 0 d))
                    (from_columns nan sz_)).
  assert (MX : mapM (fun Xi => mapM (c Xi) (seq 0 d)) X_ =
               mapM (fun i => mapM (c (nth i X_ [])) (seq 0 d)) (seq 0 n)).
  { rewrite <- (mapM_map (fun i => nth i X_ [])
                         (fun Xi => mapM (c Xi) (seq 0 d))).
    unfold n. now rewrite map_nth_seq. }
  rewrite MX. clear MX.
  destruct (mapM _ (seq 0 n)) as [e|colss] eqn:M; [reflexivity|].
  unfold bind, ret. f_equal.
  assert (Lc : length colss = n).
  { apply mapM_inr_length in M. now rewrite length_seq in M. }
  assert (W : forall cols, In cols colss ->
                length cols = d /\ Forall (fun col => length col = sz_) cols).
  { intros cols I. destruct (mapM_inr_in _ _ _ M I) as (i & _ & Ei).
    split.
    - apply mapM_inr_length in Ei. now rewrite length_seq in Ei.
    - apply Forall_forall. intros col Ic.
      destruct (mapM_inr_in _ _ _ Ei Ic) as (di & _ & Ec).
      unfold c in Ec. apply interpolated_length in Ec.
      now rewrite linspace_length in Ec. }
  rewrite (fold_left_ext
             _
             (fun b p =>
                update (fst p)
                       ((fun cols Xi =>
                           fold_left
                             (fun Xi q =>
                                map2 (fun s v => update (fst q) (fun _ => v) s)
                                     Xi (snd q))
                             (combine (seq 0 d) cols) Xi) (snd p))
                       b)).
  2:{ intros b p. unfold assign_column. now rewrite fold_update_same. }
  pose proof (@fold_update_seq
                _ _
                (fun cols Xi =>
                   fold_left
                     (fun Xi q =>
                        map2 (fun s v => update (fst q) (fun _ => v) s)
                             Xi (snd q))
                     (combine (seq 0 d) cols) Xi)
                colss B0 []) as U.
  cbn [length app] in U. rewrite Lc in U.
  rewrite U by (unfold B0; now rewrite length_map, length_seq).
  clear U.
  rewrite <- (map2_fst (from_columns nan sz_) colss B0)
    by (unfold B0; now rewrite length_map, length_seq).
  apply map2_ext_in. intros cols Bi Ic Ib.
  unfold B0 in Ib. apply in_map_iff in Ib. destruct Ib as (i & <- & _).
  destruct (W cols Ic) as [Ld Ls].
  apply assign_columns_series; auto.
  intros t. now rewrite length_map, length_seq.
Qed.
End InPlace.

(** ** Determinism *)

Section Determinism.
Context {F : Type} `{Number F}.

(** C9.  What [transform] returns is a function of the configuration, of the
    shape recorded by [fit] and of the input, and of nothing else.  The
    resampler writes its output into an array that numpy.empty leaves
    uninitialised: whatever that array holds, the loops overwrite every entry
    of it or raise, so that two calls return the same result; and the
    resampler ignores [fit].  The scalers allocate no such array and assign
    nothing to the component: two scalers that agree on the configuration
    and were fitted on datasets of the same shape return the same result (for
    the range scaler, the same warnings too) on the same input. *)
Theorem transform_deterministic :
  (forall (uninit uninit' : nat -> nat -> nat -> F)
          (r r' : TimeSeriesResampler.t) (X0 X : dataset F),
      TimeSeriesResampler.sz_ r = TimeSeriesResampler.sz_ r' ->
      TimeSeriesResampler.transform_in_place
        uninit (TimeSeriesResampler.fit r X0) X
      = TimeSeriesResampler.transform_in_place uninit' r' X)
  /\
  (forall (uninit : nat -> nat -> nat -> F)
          (r : TimeSeriesResampler.t) (X : dataset F),
      TimeSeriesResampler.transform_in_place uninit r X
      = TimeSeriesResampler.transform r X)
  /\
  (forall (s s' : TimeSeriesScalerMinMax.t F) (X0 X0' X : dataset F),
      TimeSeriesScalerMinMax.value_range s = TimeSeriesScalerMinMax.value_range s' ->
      TimeSeriesScalerMinMax.min s = TimeSeriesScalerMinMax.min s' ->
      TimeSeriesScalerMinMax.max s = TimeSeriesScalerMinMax.max s' ->
      shape_of X0 = shape_of X0' ->
      TimeSeriesScalerMinMax.transform (TimeSeriesScalerMinMax.fit s X0) X
      = TimeSeriesScalerMinMax.transform (TimeSeriesScalerMinMax.fit s' X0') X)
  /\
  (forall (s s' : TimeSeriesScalerMeanVariance.t F) (X0 X0' X : dataset F),
      TimeSeriesScalerMeanVariance.mu s = TimeSeriesScalerMeanVariance.mu s' ->
      TimeSeriesScalerMeanVariance.std s = TimeSeriesScalerMeanVariance.std s' ->
      shape_of X0 = shape_of X0' ->
      TimeSeriesScalerMeanVariance.transform (TimeSeriesScalerMeanVariance.fit s X0) X
      = TimeSeriesScalerMeanVariance.transform (TimeSeriesScalerMeanVariance.fit s' X0') X).
Proof.
  split; [| split; [| split]].
  - intros uninit uninit' [sz] [sz'] X0 X E. simpl in E. subst sz'.
    unfold TimeSeriesResampler.fit. now rewrite !resampler_in_place.
  - apply resampler_in_place.
  - intros s s' X0 X0' X E1 E2 E3 E4.
    rewrite !minmax_fit_eq. now rewrite E1, E2, E3, E4.
  - intros s s' X0 X0' X E1 E2 E3.
    unfold TimeSeriesScalerMeanVariance.fit, check_array.
    now rewrite E1, E2, E3.
Qed.
End Determinism.

Lemma transform_deterministic_witness :
  let X0 := [[ [B64.of_Z 0]; [B64.of_Z 3]; [B64.of_Z 6] ]] in
  let X0' := [[ [B64.of_Z 1]; [B64.of_Z 1]; [B64.of_Z 2] ]] in
  let s := TimeSeriesScalerMinMax.__init__ (B64.of_Z 1, B64.of_Z 2) None None in
  let r := TimeSeriesResampler.__init__ 5 in
  TimeSeriesScalerMinMax.transform (TimeSeriesScalerMinMax.fit s X0) X0
  = TimeSeriesScalerMinMax.transform (TimeSeriesScalerMinMax.fit s X0') X0
  /\
  TimeSeriesResampler.transform_in_place
    (fun _ _ _ => B64.of_Z 7) (TimeSeriesResampler.fit r X0') X0
  = TimeSeriesResampler.transform_in_place (fun _ _ _ => S754_nan) r X0.
Proof.
  intros X0 X0' s r. split.
  - apply (proj1 (proj2 (proj2 (@transform_deterministic B64.t binary64)))
             s s X0 X0' X0); reflexivity.
  - apply (proj1 (@transform_deterministic B64.t binary64)
             (fun _ _ _ => B64.of_Z 7) (fun _ _ _ => S754_nan) r r X0' X0).
    reflexivity.
Defined.

Lemma minmax_legacy_override_witness :
  let X := [[ [B64.of_Z 0]; [B64.of_Z 3]; [B64.of_Z 6] ]] in
  let self := {| TimeSeriesScalerMinMax.value_range := (B64.of_Z 5, B64.of_Z 2);
                 TimeSeriesScalerMinMax.min := Some (B64.of_Z 1);
                 TimeSeriesScalerMinMax.max := None;
                 TimeSeriesScalerMinMax._X_fit_dims := Some (1, 3, 1) |} in
  exists Y,
    TimeSeriesScalerMinMax.transform self X
    = ([DeprecationWarning "min"], inr Y) /\
    position Y 0 1 0 /\
    at3 Y 0 1 0 = B64.of_Z2 3 (-1).
Proof.
  intros X self.
  destruct (proj1 (proj2 (proj2
              (@minmax_legacy_override
                 B64.t binary64 (B64.of_Z 5, B64.of_Z 2) (Some (B64.of_Z 1))
                 None (Some (1, 3, 1)) X)))
              eq_refl (1, 3, 1) eq_refl eq_refl ltac:(vm_compute; lia))
    as (Y & E & A).
  exists Y. split; [exact E|].
  destruct (A 0 1 0 ltac:(repeat split; vm_compute; lia)) as [P V].
  split; [exact P|]. rewrite V. vm_compute. reflexivity.
Defined.
(** ** The examples of the docstrings, in binary64 *)

Example resampler_docstring :
  TimeSeriesResampler.transform (TimeSeriesResampler.__init__ 5)
    [[ [B64.of_Z 0]; [B64.of_Z 3]; [B64.of_Z 6] ]]
  = inr [[ [B64.of_Z 0]; [B64.of_Z2 3 (-1)]; [B64.of_Z 3];
           [B64.of_Z2 9 (-1)]; [B64.of_Z 6] ]].
Proof. reflexivity. Qed.

(** [-1.22474487], [0.] and [1.22474487] are the digits numpy prints for
    [-5515760546423087 / 2^52], [0] and [5515760546423087 / 2^52]. *)
Example meanvariance_docstring :
  let X := [[ [B64.of_Z 0]; [B64.of_Z 3]; [B64.of_Z 6] ]] in
  TimeSeriesScalerMeanVariance.transform
    (TimeSeriesScalerMeanVariance.fit
       (TimeSeriesScalerMeanVariance.__init__ (B64.of_Z 0) (B64.of_Z 1)) X) X
  = inr [[ [S754_finite true 5515760546423087 (-52)]; [S754_zero false];
           [S754_finite false 5515760546423087 (-52)] ]].
Proof. reflexivity. Qed.

Example meanvariance_docstring_nan :
  let X := [[ [S754_nan]; [B64.of_Z 3]; [B64.of_Z 6] ]] in
  TimeSeriesScalerMeanVariance.transform
    (TimeSeriesScalerMeanVariance.fit
       (TimeSeriesScalerMeanVariance.__init__ (B64.of_Z 0) (B64.of_Z 1)) X) X
  = inr [[ [S754_nan]; [B64.of_Z (-1)]; [B64.of_Z 1] ]].
Proof. reflexivity. Qed.

(** A series shorter than the others is padded, and resampled from its own
    valid steps. *)
Example resampler_ragged :
  TimeSeriesResampler.transform (TimeSeriesResampler.__init__ 3)
    [ [ [B64.of_Z 0]; [B64.of_Z 2] ];
      [ [B64.of_Z 1]; [B64.of_Z 2]; [B64.of_Z 3]; [B64.of_Z 4]; [B64.of_Z 5] ] ]
  = inr [ [ [B64.of_Z 0]; [B64.of_Z 1]; [B64.of_Z 2] ];
          [ [B64.of_Z 1]; [B64.of_Z 3]; [B64.of_Z 5] ] ].
Proof. reflexivity. Qed.

(** * Further properties of the three transformers *)

(** ** TimeSeriesResampler: the shape of the output and its only error *)

Section ResamplerShape.
Context {F : Type} `{Number F}.

(** X1.  X_out is allocated as [numpy.empty((n_ts, self.sz_, d))]: whenever
    [transform] returns, its result has one series per input series, [sz_]
    steps per series and, per step, the [d] features of the normalized
    input.  This holds for a target size of one as well. *)
Theorem resampler_output_shape (self : TimeSeriesResampler.t) (X Y : dataset F) :
  TimeSeriesResampler.transform self X = inr Y ->
  length Y = length X /\
  Forall (fun Yi =>
            length Yi = TimeSeriesResampler.sz_ self /\
            Forall (fun st =>
                      length st = snd (shape_of (to_time_series_dataset X)))
                   Yi)
         Y.
Proof.
  unfold TimeSeriesResampler.transform.
  destruct (TimeSeriesResampler.sz_ self =? 1) eqn:U.
  - intros E. assert (E' : TimeSeriesResampler._transform_unit_sz
                             self (to_time_series_dataset X) = Y)
      by (unfold ret in E; congruence).
    subst Y. unfold TimeSeriesResampler._transform_unit_sz.
    destruct (shape_of (to_time_series_dataset X)) as [[n_ts sz] d].
    cbn [snd]. split.
    + rewrite length_map. apply length_map.
    + apply Forall_forall. intros Yi I. apply in_map_iff in I.
      destruct I as (Xi & <- & _). split; [apply repeat_length|].
      apply Forall_forall. intros st Hst. apply repeat_spec in Hst. subst st.
      now rewrite length_map, length_seq.
  - destruct (shape_of (to_time_series_dataset X)) as [[n_ts sz] d].
    cbn [snd]. intros E. split.
    + apply mapM_inr_length in E. rewrite E. apply length_map.
    + apply Forall_forall. intros Yi I.
      destruct (mapM_inr_in _ _ _ E I) as (Xi & _ & Ei). clear E I.
      destruct (mapM _ (seq 0 d)) as [e|cols] eqn:M; [discriminate|].
      assert (Yi = from_columns nan (TimeSeriesResampler.sz_ self) cols)
        by (cbn [bind] in Ei; unfold ret in Ei; congruence).
      subst Yi. split; [apply from_columns_length|].
      apply Forall_forall. intros st Hst. unfold from_columns in Hst.
      apply in_map_iff in Hst. destruct Hst as (t & <- & _).
      apply mapM_inr_length in M. rewrite length_map, M. apply length_seq.
Qed.

(** The only exception [transform] raises is the one of the interpolation:
    there is no validation of [sz_] or of the input. *)
Lemma resampler_error_kind (self : TimeSeriesResampler.t) (X : dataset F) e :
  TimeSeriesResampler.transform self X = inl e -> e = InterpolationError.
Proof.
  unfold TimeSeriesResampler.transform.
  destruct (TimeSeriesResampler.sz_ self =? 1); [discriminate|].
  destruct (shape_of (to_time_series_dataset X)) as [[n_ts sz] d].
  intros E. apply mapM_inl_in in E. destruct E as (Xi & _ & E).
  destruct (mapM _ (seq 0 d)) as [e'|cols] eqn:M; [| discriminate].
  unfold bind in E. inversion E. subst e'. clear E.
  apply mapM_inl_in in M. destruct M as (di & _ & E).
  unfold interp1d, bind, raise, ret in E.
  repeat match type of E with
         | context [if ?c then _ else _] => destruct c
         end; inversion E; reflexivity.
Qed.
End ResamplerShape.

Section ResamplerShortSeries.
Context {F : Type} `{Number F}.
Hypothesis isnan_nan : isnan nan = true.

(** X2.  A series with fewer than two valid steps cannot be interpolated: with a
    target size other than one and at least one feature, the whole call
    raises the interpolation error, whatever the other series are. *)
Theorem resampler_short_series_error sz_ (X : dataset F) ts :
  sz_ <> 1 ->
  In ts X -> ts_size ts < 2 ->
  0 < snd (shape_of (to_time_series_dataset X)) ->
  TimeSeriesResampler.transform (TimeSeriesResampler.__init__ sz_) X
  = inl InterpolationError.
Proof.
  intros Hsz I S D.
  destruct (resampler_short_series_raises isnan_nan X ts Hsz I S D) as (e & E).
  rewrite E. f_equal. exact (resampler_error_kind _ _ E).
Qed.
End ResamplerShortSeries.

Lemma resampler_output_shape_witness :
  let X := [ [ [B64.of_Z 0; B64.of_Z 1]; [B64.of_Z 2; B64.of_Z 3] ];
             [ [B64.of_Z 1; B64.of_Z 1]; [B64.of_Z 2; B64.of_Z 5];
               [B64.of_Z 3; B64.of_Z 7] ] ] in
  let Y := [ [ [B64.of_Z 0; B64.of_Z 1]; [B64.of_Z 1; B64.of_Z 2];
               [B64.of_Z 2; B64.of_Z 3] ];
             [ [B64.of_Z 1; B64.of_Z 1]; [B64.of_Z 2; B64.of_Z 5];
               [B64.of_Z 3; B64.of_Z 7] ] ] in
  length Y = length X /\
  Forall (fun Yi =>
            length Yi = 3 /\
            Forall (fun st =>
                      length st = snd (shape_of (to_time_series_dataset X)))
                   Yi)
         Y.
Proof.
  intros X Y.
  apply (@resampler_output_shape _ binary64 (TimeSeriesResampler.__init__ 3) X Y).
  vm_compute. reflexivity.
Defined.

Lemma resampler_short_series_error_witness :
  TimeSeriesResampler.transform (TimeSeriesResampler.__init__ 4)
    [ [ [B64.of_Z 0]; [B64.of_Z 2]; [B64.of_Z 4] ];
      [ [B64.of_Z 7]; [S754_nan]; [S754_nan] ] ]
  = inl InterpolationError.
Proof.
  apply (@resampler_short_series_error _ binary64 eq_refl 4 _
           [ [B64.of_Z 7]; [S754_nan]; [S754_nan] ]).
  - lia.
  - right. left. reflexivity.
  - vm_compute. lia.
  - vm_compute. lia.
Defined.

(** ** The two scalers: fitting, then transforming *)

Section ScalerShape.
Context {F : Type} `{Number F}.
Local Open Scope num_scope.

(** X3.  sklearn's [fit_transform] is [fit(X).transform(X)].  On the array
    it was fitted on, a scaler never fails on a missing attribute or on the
    shape check.  The moment scaler returns.  The range scaler raises
    InvalidConfiguration when its interval is refused, raises in
    numpy.nanmin when the normalized array has no time step (an array that
    holds no valid step), and returns otherwise. *)
Theorem fit_then_transform_accepted :
  (forall (self : TimeSeriesScalerMeanVariance.t F) (X : dataset F),
      is_array X ->
      TimeSeriesScalerMeanVariance.transform
        (TimeSeriesScalerMeanVariance.fit self X) X
      = inr (TimeSeriesScalerMeanVariance.standardize
               (TimeSeriesScalerMeanVariance.mu self)
               (TimeSeriesScalerMeanVariance.std self)
               (to_time_series_dataset X)))
  /\
  (forall (self : TimeSeriesScalerMinMax.t F) (X : dataset F),
      is_array X ->
      let '(w, (lo, hi)) := TimeSeriesScalerMinMax.effective_range self in
      TimeSeriesScalerMinMax.transform (TimeSeriesScalerMinMax.fit self X) X
      = (w, if lo >=? hi then inl (InvalidConfiguration (lo, hi))
            else if time_steps (to_time_series_dataset X) =? 0
                 then inl ZeroSizeReduction
                 else inr (TimeSeriesScalerMinMax.rescale
                             (lo, hi) (to_time_series_dataset X)))).
Proof.
  split.
  - intros self X _.
    apply (meanvariance_transform_ok
             (TimeSeriesScalerMeanVariance.fit self X) X (fd := shape_of X));
      [reflexivity | apply shape_compatible_refl].
  - intros self X _.
    destruct (TimeSeriesScalerMinMax.effective_range self) as [w [lo hi]] eqn:E.
    destruct (lo >=? hi) eqn:V.
    + unfold TimeSeriesScalerMinMax.transform.
      rewrite minmax_fit_range, E. cbn [fst snd]. now rewrite V.
    + destruct (Nat.eqb_spec (time_steps (to_time_series_dataset X)) 0)
        as [L | L].
      * apply (@minmax_transform_empty
                 _ _ (TimeSeriesScalerMinMax.fit self X) X w lo hi (shape_of X));
          [now rewrite minmax_fit_range | exact V | reflexivity
           | apply shape_compatible_refl | exact L].
      * apply (minmax_transform_ok
                 (TimeSeriesScalerMinMax.fit self X) X (fd := shape_of X));
          [now rewrite minmax_fit_range | exact V | reflexivity
           | apply shape_compatible_refl | lia].
Qed.
End ScalerShape.

Lemma fit_then_transform_accepted_witness :
  let X := [[ [S754_nan]; [S754_nan] ]] in
  TimeSeriesScalerMinMax.transform
    (TimeSeriesScalerMinMax.fit
       (TimeSeriesScalerMinMax.__init__ (B64.of_Z 0, B64.of_Z 1) None None) X) X
  = ([], inl ZeroSizeReduction).
Proof.
  intros X.
  apply (proj2 (@fit_then_transform_accepted B64.t binary64)
               (TimeSeriesScalerMinMax.__init__ (B64.of_Z 0, B64.of_Z 1) None None)
               X).
  split; [simpl; lia | repeat constructor].
Defined.

(** ** The two scalers keep the shape of the normalized input *)

Section ShapeKept.
Context {F : Type} `{Number F}.
Local Open Scope num_scope.

(** The number of features of every step of every series. *)
Lemma scalar_skeleton op (X : dataset F) c :
  map (map (@length F)) (scalar op X c) = map (map (@length F)) X.
Proof.
  unfold scalar. rewrite map_map. apply map_ext. intros Xi.
  rewrite map_map. apply map_ext. intros st. apply length_map.
Qed.

Lemma broadcast_skeleton op d (X : dataset F) : forall stat,
  length stat = length X ->
  Forall (fun row => length row = d) stat ->
  Forall (Forall (fun st => length st = d)) X ->
  map (map (@length F)) (broadcast op X stat) = map (map (@length F)) X.
Proof.
  unfold broadcast.
  induction X as [|Xi X IH]; intros [|row stat] L R W; try discriminate L;
    [reflexivity|].
  cbn [map2 map]. inversion R; subst. inversion W; subst.
  f_equal; [| apply IH; auto].
  rewrite map_map. apply map_ext_in. intros st I.
  rewrite map2_length.
  match goal with
  | W' : Forall _ Xi |- _ => rewrite Forall_forall in W'; rewrite (W' st I)
  end.
  lia.
Qed.

Lemma lengths_width d : forall Xi Yi : list (list F),
  map (@length F) Yi = map (@length F) Xi ->
  Forall (fun st => length st = d) Xi ->
  Forall (fun st => length st = d) Yi.
Proof.
  induction Xi as [|st Xi IH]; intros [|st' Yi] E W; try discriminate E;
    constructor; cbn [map] in E; injection E as E0 E1; inversion W; subst.
  - assumption.
  - now apply IH.
Qed.

Lemma skeleton_width d : forall X Y : dataset F,
  map (map (@length F)) Y = map (map (@length F)) X ->
  Forall (Forall (fun st => length st = d)) X ->
  Forall (Forall (fun st => length st = d)) Y.
Proof.
  induction X as [|Xi X IH]; intros [|Yi Y] E W; try discriminate E;
    constructor; cbn [map] in E; injection E as E0 E1; inversion W; subst.
  - eapply lengths_width; eassumption.
  - now apply IH.
Qed.

Lemma along_axis1_rows g d (X : dataset F) :
  Forall (fun row => length row = d) (along_axis1 column g d X).
Proof.
  unfold along_axis1. apply Forall_forall. intros row I.
  apply in_map_iff in I. destruct I as (Xi & <- & _).
  now rewrite length_map, length_seq.
Qed.

Lemma map2_rows (op : F -> F -> F) d : forall a b : list (list F),
  Forall (fun row => length row = d) a ->
  Forall (fun row => length row = d) b ->
  Forall (fun row => length row = d) (map2 (map2 op) a b).
Proof.
  induction a as [|ra a IH]; intros [|rb b] A B; cbn [map2]; try constructor;
    inversion A; subst; inversion B; subst.
  - rewrite map2_length. lia.
  - now apply IH.
Qed.

(** [(X - a) * r / b + c] has the shape of [X] when [a] and [b] have one
    row of [d] values per series. *)
Lemma scaled_skeleton d (a b : list (list F)) r c (X : dataset F) :
  length a = length X -> length b = length X ->
  Forall (fun row => length row = d) a ->
  Forall (fun row => length row = d) b ->
  Forall (Forall (fun st => length st = d)) X ->
  map (map (@length F))
      (scalar add (broadcast div (scalar mul (broadcast sub X a) r) b) c)
  = map (map (@length F)) X.
Proof.
  intros La Lb Ra Rb W.
  assert (S1 := broadcast_skeleton sub La Ra W).
  assert (S2 := scalar_skeleton mul (broadcast sub X a) r).
  rewrite scalar_skeleton, (broadcast_skeleton div (d := d)); auto.
  - congruence.
  - rewrite Lb. unfold scalar, broadcast.
    rewrite length_map, map2_length, La. symmetry. apply Nat.min_id.
  - eapply skeleton_width; [| exact W]. congruence.
Qed.

Lemma rescale_skeleton vr (X_ : dataset F) :
  Forall (Forall (fun st => length st = snd (shape_of X_))) X_ ->
  map (map (@length F)) (TimeSeriesScalerMinMax.rescale vr X_)
  = map (map (@length F)) X_.
Proof.
  unfold TimeSeriesScalerMinMax.rescale, TimeSeriesScalerMinMax.scale.
  destruct (shape_of X_) as [[n_ts sz] d]. cbn [snd]. intros W.
  apply (scaled_skeleton (d := d)); auto.
  - apply along_axis1_length.
  - rewrite map2_length, !along_axis1_length. apply Nat.min_id.
  - apply along_axis1_rows.
  - apply map2_rows; apply along_axis1_rows.
Qed.

Lemma standardize_skeleton mu std (X_ : dataset F) :
  Forall (Forall (fun st => length st = snd (shape_of X_))) X_ ->
  map (map (@length F)) (TimeSeriesScalerMeanVariance.standardize mu std X_)
  = map (map (@length F)) X_.
Proof.
  unfold TimeSeriesScalerMeanVariance.standardize.
  destruct (shape_of X_) as [[n_ts sz] d]. cbn [snd]. intros W.
  apply (scaled_skeleton (d := d)); auto.
  - apply along_axis1_length.
  - rewrite length_map. apply along_axis1_length.
  - apply along_axis1_rows.
  - apply Forall_forall. intros row I. apply in_map_iff in I.
    destruct I as (row' & <- & I'). rewrite length_map.
    pose proof (along_axis1_rows (nanstd (d =? 1)) d X_) as R.
    rewrite Forall_forall in R. now apply R.
Qed.
End ShapeKept.

Section ShapeKeptByTransform.
Context {F : Type} `{Number F}.
Local Open Scope num_scope.

Lemma Forall_prefix {A} (P : A -> Prop) (l : list A) : forall n,
  Forall P l -> Forall P (firstn n l).
Proof.
  induction l as [|a l IH]; intros [|n] W; cbn [firstn]; try constructor;
    inversion W; subst; auto.
Qed.

(** The normalized dataset of an array whose steps all have the [d]
    features of its shape is again such an array. *)
Lemma canonical_width (X : dataset F) :
  Forall (Forall (fun st => length st = snd (shape_of X))) X ->
  Forall (Forall (fun st => length st = snd (shape_of (to_time_series_dataset X))))
         (to_time_series_dataset X).
Proof.
  intros W.
  assert (W1 : Forall (Forall (fun st => length st = snd (shape_of X)))
                      (to_time_series_dataset X)).
  { unfold to_time_series_dataset. apply Forall_forall. intros c I.
    apply in_map_iff in I. destruct I as (ts & <- & I).
    unfold canonical_series. apply Forall_app. split.
    - apply Forall_prefix. rewrite Forall_forall in W. now apply W.
    - apply Forall_forall. intros st Hst. apply repeat_spec in Hst. subst st.
      apply repeat_length. }
  destruct X as [|s0 r] eqn:EX; [constructor|]. rewrite <- EX in *.
  assert (I0 : In s0 X) by (rewrite EX; now left).
  destruct (canonical_series X s0) as [|st c0] eqn:C0.
  - (* no step at all in the normalized dataset *)
    apply Forall_forall. intros c I.
    unfold to_time_series_dataset in I. apply in_map_iff in I.
    destruct I as (ts & <- & I).
    assert (L : length (canonical_series X ts) = 0).
    { rewrite (canonical_length X ts I), <- (canonical_length X s0 I0), C0.
      reflexivity. }
    destruct (canonical_series X ts); [constructor | discriminate L].
  - assert (D : snd (shape_of (to_time_series_dataset X)) = snd (shape_of X)).
    { unfold shape_of at 1. cbn [snd]. unfold to_time_series_dataset.
      rewrite EX at 2. cbn [map hd]. rewrite C0. cbn [hd].
      rewrite Forall_forall in W1.
      assert (Ic : In (canonical_series X s0) (to_time_series_dataset X)).
      { unfold to_time_series_dataset. now apply in_map. }
      specialize (W1 _ Ic). rewrite C0 in W1. now inversion W1. }
    now rewrite D.
Qed.

(** X4.  On an input that is an array (every step has the [d] features of the
    shape), a successful [transform] of either scaler returns an array with,
    series by series and step by step, the layout of the normalized input:
    no series, step or feature is added or dropped. *)
Theorem scalers_preserve_shape :
  (forall (self : TimeSeriesScalerMeanVariance.t F) (X Y : dataset F),
      Forall (Forall (fun st => length st = snd (shape_of X))) X ->
      TimeSeriesScalerMeanVariance.transform self X = inr Y ->
      map (map (@length F)) Y = map (map (@length F)) (to_time_series_dataset X))
  /\
  (forall (self : TimeSeriesScalerMinMax.t F) (X Y : dataset F),
      Forall (Forall (fun st => length st = snd (shape_of X))) X ->
      snd (TimeSeriesScalerMinMax.transform self X) = inr Y ->
      map (map (@length F)) Y = map (map (@length F)) (to_time_series_dataset X)).
Proof.
  split.
  - intros self X Y W.
    unfold TimeSeriesScalerMeanVariance.transform, getattr, check_dims,
      check_array, bind, raise, ret.
    destruct (TimeSeriesScalerMeanVariance._X_fit_dims self) as [fd|];
      [| discriminate].
    destruct (shape_compatible fd (shape_of X)); [| discriminate].
    intros E. inversion E.
    apply standardize_skeleton, canonical_width, W.
  - intros self X Y W.
    unfold TimeSeriesScalerMinMax.transform, getattr, check_dims,
      check_array, bind, raise, ret.
    destruct (TimeSeriesScalerMinMax.effective_range self) as [w [lo hi]].
    cbn [fst snd].
    destruct (lo >=? hi); [discriminate|].
    destruct (TimeSeriesScalerMinMax._X_fit_dims self) as [fd|];
      [| discriminate].
    destruct (shape_compatible fd (shape_of X)); [| discriminate].
    unfold reduce_axis1.
    pose proof (rescale_skeleton (lo, hi) (canonical_width W)) as S.
    unfold TimeSeriesScalerMinMax.rescale in S.
    destruct (shape_of (to_time_series_dataset X)) as [[n_ts sz] d].
    destruct (sz =? 0); [discriminate|].
    intros E. inversion E. exact S.
Qed.
End ShapeKeptByTransform.

Lemma scalers_preserve_shape_witness :
  let X := [ [ [B64.of_Z 0; B64.of_Z 1]; [B64.of_Z 2; S754_nan] ];
             [ [B64.of_Z 1; B64.of_Z 1]; [S754_nan; S754_nan] ] ] in
  let self := TimeSeriesScalerMinMax.fit
                (TimeSeriesScalerMinMax.__init__ (B64.of_Z 0, B64.of_Z 1) None None)
                X in
  exists Y,
    snd (TimeSeriesScalerMinMax.transform self X) = inr Y /\
    map (map (@length B64.t)) Y = [[2; 2]; [2; 2]].
Proof.
  intros X self. eexists. split; [reflexivity|].
  apply (proj2 (@scalers_preserve_shape _ binary64) self X).
  - repeat constructor.
  - reflexivity.
Defined.

(** ** Missing values and NaN in binary64 *)

Section Binary64Missing.
Local Open Scope num_scope.

Lemma exact_isnan (x : Exact.t) : isnan x = true -> x = None.
Proof. destruct x; simpl; congruence. Qed.

Lemma b64_nan_r (x : B64.t) :
  x + S754_nan = S754_nan /\ x - S754_nan = S754_nan /\
  x * S754_nan = S754_nan /\ x / S754_nan = S754_nan.
Proof. destruct x; repeat split; reflexivity. Qed.

(** X5.  An interval with a NaN end passes the validation, since no comparison
    with NaN holds: on a normalized input with at least one time step the
    call goes on, and the dataset it returns holds every position of the
    input, with NaN there. *)
Theorem minmax_nan_interval_end
        (self : TimeSeriesScalerMinMax.t B64.t) (X : dataset B64.t)
        w lo hi fd :
  TimeSeriesScalerMinMax.effective_range self = (w, (lo, hi)) ->
  isnan lo || isnan hi = true ->
  TimeSeriesScalerMinMax._X_fit_dims self = Some fd ->
  shape_compatible fd (shape_of X) = true ->
  0 < time_steps (to_time_series_dataset X) ->
  exists Y,
    TimeSeriesScalerMinMax.transform self X = (w, inr Y) /\
    forall i t di,
      in_range (to_time_series_dataset X) i t di ->
      position Y i t di /\ at3 Y i t di = S754_nan.
Proof.
  intros E N Fd C L.
  assert (V : (lo >=? hi) = false).
  { apply orb_true_iff in N. destruct N as [N | N]; apply b64_isnan in N;
      subst; [apply b64_leb_nan_r | apply b64_leb_nan_l]. }
  eexists. split; [now apply (minmax_transform_ok self X E V Fd C)|].
  intros i t di R. split; [now apply rescale_position|].
  rewrite rescale_at by assumption. unfold affine_code.
  apply orb_true_iff in N. destruct N as [N | N]; apply b64_isnan in N; subst.
  - apply b64_nan_r.
  - rewrite (proj1 (proj2 (b64_nan_l lo))).
    rewrite (proj1 (proj2 (proj2 (b64_nan_r _)))).
    reflexivity.
Qed.

(** X6.  The moment scaler, like the range scaler, gives back a missing value
    wherever its input holds one, whatever the configuration: in binary64
    and in exact arithmetic. *)
Theorem meanvariance_missing_stays_missing :
  (forall (self : TimeSeriesScalerMeanVariance.t B64.t) (X : dataset B64.t)
          fd,
      TimeSeriesScalerMeanVariance._X_fit_dims self = Some fd ->
      shape_compatible fd (shape_of X) = true ->
      exists Y,
        TimeSeriesScalerMeanVariance.transform self X = inr Y /\
        forall i t di,
          in_range (to_time_series_dataset X) i t di ->
          isnan (at3 (to_time_series_dataset X) i t di) = true ->
          isnan (at3 Y i t di) = true)
  /\
  (forall (self : TimeSeriesScalerMeanVariance.t Exact.t) (X : dataset Exact.t)
          fd,
      TimeSeriesScalerMeanVariance._X_fit_dims self = Some fd ->
      shape_compatible fd (shape_of X) = true ->
      exists Y,
        TimeSeriesScalerMeanVariance.transform self X = inr Y /\
        forall i t di,
          in_range (to_time_series_dataset X) i t di ->
          isnan (at3 (to_time_series_dataset X) i t di) = true ->
          isnan (at3 Y i t di) = true).
Proof.
  split; intros self X fd Fd C;
    (eexists; split; [now apply (meanvariance_transform_ok self X Fd C)|]);
    intros i t di R N; rewrite standardize_at by assumption.
  - apply b64_isnan in N. rewrite N. reflexivity.
  - apply exact_isnan in N. rewrite N. reflexivity.
Qed.
End Binary64Missing.

Lemma minmax_nan_interval_end_witness :
  let X := [[ [B64.of_Z 0]; [B64.of_Z 3]; [B64.of_Z 6] ]] in
  let self := TimeSeriesScalerMinMax.fit
                (TimeSeriesScalerMinMax.__init__ (B64.of_Z 0, S754_nan) None None)
                X in
  exists Y,
    TimeSeriesScalerMinMax.transform self X = ([], inr Y) /\
    forall i t di,
      in_range (to_time_series_dataset X) i t di ->
      position Y i t di /\ at3 Y i t di = S754_nan.
Proof.
  intros X self.
  apply (@minmax_nan_interval_end self X [] (B64.of_Z 0) S754_nan (1, 3, 1));
    try reflexivity.
  vm_compute. lia.
Defined.

Lemma meanvariance_missing_stays_missing_witness :
  let X := [[ [S754_nan]; [B64.of_Z 3]; [B64.of_Z 6] ]] in
  let self := TimeSeriesScalerMeanVariance.fit
                (TimeSeriesScalerMeanVariance.__init__ (B64.of_Z 0) (B64.of_Z 1))
                X in
  exists Y,
    TimeSeriesScalerMeanVariance.transform self X = inr Y /\
    isnan (at3 Y 0 0 0) = true.
Proof.
  intros X self.
  destruct (proj1 meanvariance_missing_stays_missing self X (1, 3, 1)
                  eq_refl eq_refl) as (Y & E & A).
  exists Y. split; [exact E|].
  apply A; [| reflexivity].
  repeat split; vm_compute; lia.
Defined.

(** ** TimeSeriesScalerMinMax: each series on its own *)

Section OnItsOwn.
Context {F : Type} `{Number F}.
Hypothesis isnan_nan : isnan nan = true.
Local Open Scope num_scope.

Lemma nth_repeat_nan di d : nth di (repeat (nan : F) d) nan = nan.
Proof.
  destruct (Nat.lt_ge_cases di d) as [L | G].
  - apply (repeat_spec d nan). apply nth_In. now rewrite repeat_length.
  - apply nth_overflow. now rewrite repeat_length.
Qed.

Lemma column_padding di d k :
  column di (repeat (repeat (nan : F) d) k) = repeat nan k.
Proof.
  unfold column. induction k as [|k IH]; cbn [repeat map]; [reflexivity|].
  now rewrite IH, nth_repeat_nan.
Qed.

(** Padding changes neither the least nor the greatest known value. *)
Lemma fold_padding (op : F -> F -> F) k :
  (forall a, op a nan = a) ->
  forall a, fold_left op (repeat nan k) a = a.
Proof.
  intros O. induction k as [|k IH]; intros a; cbn [repeat fold_left];
    [reflexivity|].
  now rewrite O.
Qed.

Lemma reduce_padding (op : F -> F -> F) (l : list F) k :
  (forall a, op a nan = a) ->
  reduce op nan (l ++ repeat nan k) = reduce op nan l.
Proof.
  intros O. destruct l as [|x l]; cbn [app reduce].
  - destruct k as [|k]; cbn [repeat]; [reflexivity|]. now apply fold_padding.
  - rewrite fold_left_app. now apply fold_padding.
Qed.

Lemma fmin_nan_r (a : F) : fmin a nan = a.
Proof. unfold fmin. now rewrite isnan_nan, orb_true_r. Qed.

Lemma fmax_nan_r (a : F) : fmax a nan = a.
Proof. unfold fmax. now rewrite isnan_nan, orb_true_r. Qed.

Lemma canonical_column (X : dataset F) ts di :
  column di (canonical_series X ts)
  = column di (firstn (ts_size ts) ts)
    ++ repeat nan (fold_right Nat.max 0 (map ts_size X) - ts_size ts).
Proof.
  unfold canonical_series. now rewrite column_app, column_padding.
Qed.

Lemma canonical_nanmin (X : dataset F) ts di :
  nanmin (column di (canonical_series X ts))
  = nanmin (column di (firstn (ts_size ts) ts)).
Proof.
  rewrite canonical_column. apply reduce_padding, fmin_nan_r.
Qed.

Lemma canonical_nanmax (X : dataset F) ts di :
  nanmax (column di (canonical_series X ts))
  = nanmax (column di (firstn (ts_size ts) ts)).
Proof.
  rewrite canonical_column. apply reduce_padding, fmax_nan_r.
Qed.

(** A value of the normalized series is the value of the series, or the
    sentinel in the padding. *)
Lemma canonical_at (X : dataset F) ts t di :
  nth di (nth t (canonical_series X ts) []) nan
  = nth di (nth t (firstn (ts_size ts) ts) []) nan.
Proof.
  unfold canonical_series.
  assert (L : length (firstn (ts_size ts) ts) = ts_size ts).
  { rewrite length_firstn. pose proof (ts_size_le ts). lia. }
  destruct (Nat.lt_ge_cases t (ts_size ts)) as [Lt | Ge].
  - now rewrite app_nth1 by (now rewrite L).
  - rewrite app_nth2 by (now rewrite L).
    rewrite (nth_overflow (firstn _ _)) by (now rewrite L).
    set (p := repeat (repeat nan _) _).
    destruct (Nat.lt_ge_cases (t - length (firstn (ts_size ts) ts)) (length p))
      as [Lp | Gp].
    + rewrite (repeat_spec _ _ _ (nth_In p [] Lp)).
      rewrite nth_repeat_nan. now destruct di.
    + rewrite (nth_overflow p) by assumption. reflexivity.
Qed.

(** X12.  "Applied to each of the timeseries individually": the values the range
    scaler returns for a series depend on that series only, not on the
    other series of the dataset nor on the position of the series in it. *)
Theorem minmax_series_on_its_own
        (self : TimeSeriesScalerMinMax.t F) (X X' : dataset F)
        w lo hi fd i j t di :
  TimeSeriesScalerMinMax.effective_range self = (w, (lo, hi)) ->
  (lo >=? hi) = false ->
  TimeSeriesScalerMinMax._X_fit_dims self = Some fd ->
  shape_compatible fd (shape_of X) = true ->
  shape_compatible fd (shape_of X') = true ->
  nth i X [] = nth j X' [] ->
  in_range (to_time_series_dataset X) i t di ->
  in_range (to_time_series_dataset X') j t di ->
  exists Y Y',
    TimeSeriesScalerMinMax.transform self X = (w, inr Y) /\
    TimeSeriesScalerMinMax.transform self X' = (w, inr Y') /\
    at3 Y i t di = at3 Y' j t di.
Proof.
  intros E V Fd C C' S R R'.
  eexists _, _.
  split; [apply (minmax_transform_ok self X E V Fd C);
          exact (position_time_steps X (proj1 R))|].
  split; [apply (minmax_transform_ok self X' E V Fd C');
          exact (position_time_steps X' (proj1 R'))|].
  rewrite !rescale_at by assumption.
  assert (Hi : i < length X).
  { destruct R as [[Hi _] _]. now rewrite to_time_series_dataset_length in Hi. }
  assert (Hj : j < length X').
  { destruct R' as [[Hj _] _]. now rewrite to_time_series_dataset_length in Hj. }
  unfold at3. rewrite !to_time_series_dataset_nth by assumption.
  rewrite !canonical_nanmin, !canonical_nanmax, !canonical_at.
  now rewrite S.
Qed.
End OnItsOwn.

Lemma minmax_series_on_its_own_witness :
  let ts := [ [B64.of_Z 0]; [B64.of_Z 3]; [B64.of_Z 6] ] in
  let X := [ ts ] in
  let X' := [ [ [B64.of_Z 7]; [B64.of_Z 9]; [B64.of_Z 8] ]; ts ] in
  let self := TimeSeriesScalerMinMax.fit
                (TimeSeriesScalerMinMax.__init__ (B64.of_Z 1, B64.of_Z 2) None None)
                X in
  exists Y Y',
    TimeSeriesScalerMinMax.transform self X = ([], inr Y) /\
    TimeSeriesScalerMinMax.transform self X' = ([], inr Y') /\
    at3 Y 0 1 0 = at3 Y' 1 1 0.
Proof.
  intros ts X X' self.
  apply (@minmax_series_on_its_own _ binary64 eq_refl self X X' []
           (B64.of_Z 1) (B64.of_Z 2) (1, 3, 1) 0 1 1 0).
  - reflexivity.
  - reflexivity.
  - reflexivity.
  - reflexivity.
  - reflexivity.
  - reflexivity.
  - repeat split; vm_compute; lia.
  - repeat split; vm_compute; lia.
Defined.

(** ** TimeSeriesResampler with a target size of one: a feature without any
    known value *)

Section EmptyMean.
Local Open Scope num_scope.

(** X13.  With a target size of one, a feature of a series that holds no known
    value at all (the series of padding only included, in a dataset that
    has valid steps elsewhere) gives NaN: the call returns, the series has
    its one step, the step has the feature, and its value is the sum 0
    divided by the count 0. *)
Theorem resampler_unit_size_nothing_known (X : dataset B64.t) i di :
  i < length X -> di < snd (shape_of (to_time_series_dataset X)) ->
  valid (column di (nth i X [])) = [] ->
  exists Y row,
    TimeSeriesResampler.transform (TimeSeriesResampler.__init__ 1) X = inr Y /\
    nth i Y [] = [row] /\
    di < length row /\
    nth di row nan = S754_nan.
Proof.
  intros Hi Hd E.
  assert (L : 0 < time_steps (to_time_series_dataset X)).
  { unfold time_steps. unfold shape_of in Hd. cbn [snd] in Hd.
    destruct (hd [] (to_time_series_dataset X)); [simpl in Hd; lia | simpl; lia]. }
  destruct (b64_unit_size_rows X L) as (Y & T & _ & A).
  destruct (A i Hi) as (row & R & Lr & V).
  destruct (V di Hd) as (total & S & Q).
  exists Y, row. split; [exact T | split; [exact R | split; [lia|]]].
  rewrite Q, E. rewrite E in S. unfold is_sum_of in S.
  cbn [eqb binary64] in S. unfold SFeqb in S.
  destruct total as [[|] | [|] | | [|] m e]; try discriminate S; reflexivity.
Qed.
End EmptyMean.

Lemma resampler_unit_size_nothing_known_witness :
  let X := [[ [B64.of_Z 1; S754_nan]; [B64.of_Z 3; S754_nan] ]] in
  exists Y row,
    TimeSeriesResampler.transform (TimeSeriesResampler.__init__ 1) X = inr Y /\
    nth 0 Y [] = [row] /\
    1 < length row /\
    nth 1 row nan = S754_nan.
Proof.
  intros X.
  apply (@resampler_unit_size_nothing_known X 0 1).
  - simpl. lia.
  - vm_compute. lia.
  - reflexivity.
Defined.
(** ** TimeSeriesScalerMinMax in binary64: the least value *)

Section Binary64Least.
Local Open Scope num_scope.

(** X17.  In binary64 the least known value of a feature of a series is
    sent to [lo] without any rounding error (up to the sign of a zero), as
    soon as nothing overflows: the value and [lo] are finite, the width
    [hi - lo] is finite, and the span [max - min] is finite and not zero. *)
Theorem minmax_least_value_to_lo
        (self : TimeSeriesScalerMinMax.t B64.t) (X : dataset B64.t)
        w lo hi fd i t di :
  TimeSeriesScalerMinMax.effective_range self = (w, (lo, hi)) ->
  (lo >=? hi) = false ->
  TimeSeriesScalerMinMax._X_fit_dims self = Some fd ->
  shape_compatible fd (shape_of X) = true ->
  in_range (to_time_series_dataset X) i t di ->
  at3 (to_time_series_dataset X) i t di
  = nanmin (column di (nth i (to_time_series_dataset X) [])) ->
  B64.is_nan (at3 (to_time_series_dataset X) i t di)
  || B64.is_inf (at3 (to_time_series_dataset X) i t di) = false ->
  (let span := nanmax (column di (nth i (to_time_series_dataset X) []))
               - nanmin (column di (nth i (to_time_series_dataset X) [])) in
   B64.is_nan span || B64.is_inf span || B64.is_zero span = false) ->
  B64.is_nan (hi - lo) || B64.is_inf (hi - lo) = false ->
  B64.is_nan lo || B64.is_inf lo = false ->
  exists Y,
    TimeSeriesScalerMinMax.transform self X = (w, inr Y) /\
    (at3 Y i t di ==? lo) = true.
Proof.
  intros E V Fd C R Ex Fx Fs Fw Fl.
  eexists. split; [apply (minmax_transform_ok self X E V Fd C);
                   exact (position_time_steps X (proj1 R))|].
  rewrite rescale_at by assumption. unfold affine_code.
  rewrite <- Ex.
  apply b64_add_zero_l; [| exact Fl].
  apply b64_div_zero_l; [| rewrite Ex; exact Fs].
  apply b64_mul_zero_l; [| exact Fw].
  now apply b64_sub_same_finite.
Qed.
End Binary64Least.

Lemma minmax_least_value_to_lo_witness :
  let X := [[ [B64.of_Z2 1 (-1)]; [S754_nan]; [B64.of_Z 3]; [B64.of_Z 7] ]] in
  let self := TimeSeriesScalerMinMax.fit
                (TimeSeriesScalerMinMax.__init__
                   (B64.of_Z2 1 (-3), B64.of_Z 10) None None) X in
  exists Y,
    TimeSeriesScalerMinMax.transform self X = ([], inr Y) /\
    (at3 Y 0 0 0 ==? B64.of_Z2 1 (-3))%num = true.
Proof.
  intros X self.
  apply (@minmax_least_value_to_lo self X [] (B64.of_Z2 1 (-3)) (B64.of_Z 10)
           (1, 4, 1) 0 0 0).
  - reflexivity.
  - reflexivity.
  - reflexivity.
  - reflexivity.
  - repeat split; vm_compute; lia.
  - reflexivity.
  - reflexivity.
  - reflexivity.
  - reflexivity.
  - reflexivity.
Defined.
